(** * Endstone MCP server: the module-export indexer and its queries

    A shallow embedding of [endstone_mcp_server.py] (class
    [EndstoneMCPServer]): the [__all__] extractor, the module index and the
    four tool operations, followed by the properties of the specification
    that concern them.

    Python's [str] is a sequence of Unicode code points; it is modelled as a
    list of code points ([N]).  The built-in string methods the server calls
    ([split], [strip], [startswith], [find], slicing, [in], [join],
    [replace]) are written out with their Python behaviour.  [str.lower] is
    the one built-in that depends on the full Unicode case tables: it is a
    parameter of the sections that use it. *)

From Stdlib Require Import List Bool Arith NArith ZArith Lia String Ascii.
From Stdlib Require Import Numbers.DecimalString.
Import ListNotations.

Set Implicit Arguments.

(* ================================================================== *)
(** ** Python strings *)
(* ================================================================== *)

Module Py.

Definition char := N.
Definition str := list char.

(** A literal of the source, given by its ASCII text. *)
Definition lit (x : string) : str := map N_of_ascii (list_ascii_of_string x).

Definition char_eqb : char -> char -> bool := N.eqb.

Fixpoint str_eqb (a b : str) : bool :=
  match a, b with
  | [], [] => true
  | x :: a', y :: b' => char_eqb x y && str_eqb a' b'
  | _, _ => false
  end.

(** The characters [str.isspace] accepts (CPython's
    [_PyUnicode_IsWhitespace]); [str.strip()] removes exactly these. *)
Definition isspace (c : char) : bool :=
  ((9 <=? c) && (c <=? 13) || (28 <=? c) && (c <=? 32)
   || (c =? 133) || (c =? 160) || (c =? 5760)
   || (8192 <=? c) && (c <=? 8202)
   || (c =? 8232) || (c =? 8233) || (c =? 8239) || (c =? 8287)
   || (c =? 12288))%N.

(** [truthy s]: the value of a [str] in a condition ([if s:]). *)
Definition truthy (s : str) : bool :=
  match s with [] => false | _ :: _ => true end.

(** [s.startswith(p)] *)
Fixpoint startswith (s p : str) {struct p} : bool :=
  match p with
  | [] => true
  | a :: p' =>
      match s with
      | [] => false
      | b :: s' => char_eqb a b && startswith s' p'
      end
  end.

(** [sub in s] *)
Fixpoint contains (sub s : str) {struct s} : bool :=
  startswith s sub ||
  match s with
  | [] => false
  | _ :: t => contains sub t
  end.

(** [s.find(sub)]: the lowest index where [sub] starts, or -1. *)
Fixpoint find_from (i : Z) (s sub : str) {struct s} : Z :=
  if startswith s sub then i
  else match s with
       | [] => (-1)%Z
       | _ :: t => find_from (i + 1) t sub
       end.

Definition find (s sub : str) : Z := find_from 0 s sub.

(** Slicing [s[lo:hi]] with Python's treatment of negative and
    out-of-range bounds. *)
Definition clamp_index (len i : Z) : Z :=
  if (i <? 0)%Z then Z.max 0 (i + len) else Z.min i len.

Definition slice (s : str) (lo hi : Z) : str :=
  let len := Z.of_nat (List.length s) in
  let l := clamp_index len lo in
  let h := clamp_index len hi in
  firstn (Z.to_nat (h - l)) (skipn (Z.to_nat l) s).

(** [s.split(sep)] for a one-character separator: never an empty list. *)
Fixpoint split (sep : char) (s : str) : list str :=
  match s with
  | [] => [[]]
  | c :: t =>
      if char_eqb c sep then [] :: split sep t
      else match split sep t with
           | [] => [[c]]
           | h :: r => (c :: h) :: r
           end
  end.

Fixpoint lstrip_by (p : char -> bool) (s : str) : str :=
  match s with
  | [] => []
  | c :: t => if p c then lstrip_by p t else s
  end.

Definition rstrip_by (p : char -> bool) (s : str) : str :=
  rev (lstrip_by p (rev s)).

Definition strip_by (p : char -> bool) (s : str) : str :=
  rstrip_by p (lstrip_by p s).

(** [s.strip()] *)
Definition strip (s : str) : str := strip_by isspace s.

(** [s.strip(chars)] *)
Definition strip_chars (chars s : str) : str :=
  strip_by (fun c => existsb (char_eqb c) chars) s.

(** [sep.join(xs)] *)
Fixpoint join (sep : str) (xs : list str) : str :=
  match xs with
  | [] => []
  | [x] => x
  | x :: rest => x ++ sep ++ join sep rest
  end.

(** [s.replace(old, new)] for a non-empty [old]: occurrences are replaced
    from the left and do not overlap.  [skip] counts the characters of the
    occurrence just replaced that are still to be passed over. *)
Fixpoint replace_from (skip : nat) (old new s : str) {struct s} : str :=
  match s with
  | [] => []
  | c :: t =>
      match skip with
      | S k => replace_from k old new t
      | O =>
          if startswith s old
          then new ++ replace_from (List.length old - 1) old new t
          else c :: replace_from 0 old new t
      end
  end.

Definition replace (s old new : str) : str := replace_from 0 old new s.

(** [str(n)] for a length. *)
Definition str_of_nat (n : nat) : str :=
  lit (NilZero.string_of_uint (Nat.to_uint n)).

(** The characters the literals below cannot spell inside a string. *)
Definition nl : char := 10%N.
Definition dquote : str := [34%N].

End Py.

Import Py.

(* ================================================================== *)
(** ** The export extractor *)
(* ================================================================== *)

(** [_parse_list_items]: the loop body, then the loop over the pieces. *)
Definition clean_item (item : str) : str :=
  strip (strip_chars (lit "'") (strip_chars dquote (strip item))).

Definition keep_item (item : str) : bool :=
  truthy item && negb (startswith item (lit "#")).

Definition parse_step (items : list str) (item : str) : list str :=
  let item := clean_item item in
  if keep_item item then items ++ [item] else items.

Definition _parse_list_items (items_str : str) : list str :=
  fold_left parse_step (split 44%N items_str) [].

(** The two locals [_extract_exports] carries through its loop. *)
Record scan_state : Type := mk_scan {
  exports_acc : list str;
  in_all_block : bool
}.

Definition marker : str := lit "__all__".
Definition lbracket : str := lit "[".
Definition rbracket : str := lit "]".

Definition scan_line (st : scan_state) (line : str) : scan_state :=
  let line := strip line in
  if startswith line marker then
    (* in_all_block = True *)
    if contains lbracket line && contains rbracket line then
      let start := find line lbracket in
      let end_ := find line rbracket in
      if negb (start =? -1)%Z && negb (end_ =? -1)%Z then
        let items_str := slice line (start + 1) end_ in
        mk_scan (exports_acc st ++ _parse_list_items items_str) false
      else mk_scan (exports_acc st) true
    else mk_scan (exports_acc st) true
  else if in_all_block st then
    if contains rbracket line then
      let before_bracket := slice line 0 (find line rbracket) in
      mk_scan (exports_acc st ++ _parse_list_items before_bracket) false
    else
      mk_scan (exports_acc st ++ _parse_list_items line) true
  else st.

Definition scan_init : scan_state := mk_scan [] false.

Definition scan_lines (st : scan_state) (lines : list str) : scan_state :=
  fold_left scan_line lines st.

Definition scan (content : str) : scan_state :=
  scan_lines scan_init (split nl content).

Definition _extract_exports (content : str) : list str :=
  exports_acc (scan content).

Definition quoted (x : string) : str := dquote ++ lit x ++ dquote.

Definition one_line_example : str :=
  lit "__all__ = [" ++ quoted "A" ++ lit ", " ++ quoted "B" ++ lit ", "
    ++ quoted "C" ++ lit "]".

Definition block_example : str :=
  join [nl] [ lit "__all__ = [";
              lit "    " ++ quoted "X" ++ lit ",";
              lit "    " ++ quoted "Y" ++ lit ",";
              lit "]" ].

Definition block_example_flat : str :=
  join [nl] [ lit "__all__ = [";
              quoted "X" ++ lit ",";
              quoted "Y" ++ lit ",";
              lit "]" ].

(* ================================================================== *)
(** ** The module index *)
(* ================================================================== *)

(** A Python [dict] with [str] keys: keys are unique and iteration follows
    insertion order, so it is kept as an association list. *)
Module Dict.

Definition t (V : Type) : Type := list (str * V).

Definition empty {V : Type} : t V := [].

(** [d[k]] / [k in d] *)
Fixpoint get {V : Type} (d : t V) (k : str) : option V :=
  match d with
  | [] => None
  | (k', v) :: rest => if str_eqb k' k then Some v else get rest k
  end.

Definition mem {V : Type} (d : t V) (k : str) : bool :=
  match get d k with Some _ => true | None => false end.

(** [d[k] = v]: an existing key keeps its place, a new one goes last. *)
Fixpoint set {V : Type} (d : t V) (k : str) (v : V) : t V :=
  match d with
  | [] => [(k, v)]
  | (k', v') :: rest =>
      if str_eqb k' k then (k', v) :: rest else (k', v') :: set rest k v
  end.

Definition keys {V : Type} (d : t V) : list str := map fst d.

Definition items {V : Type} (d : t V) : list (str * V) := d.

End Dict.

(** The record stored per module ([modules[module_name] = {...}]). *)
Record module_info : Type := mk_module_info {
  file_path : str;
  exports : list str;
  content : str
}.

Definition module_index : Type := Dict.t module_info.

(** [core_modules], in the order of the source. *)
Definition core_modules : list (str * str) :=
  [ (lit "__init__.py", lit "endstone");
    (lit "actor.py", lit "endstone.actor");
    (lit "ban.py", lit "endstone.ban");
    (lit "block.py", lit "endstone.block");
    (lit "boss.py", lit "endstone.boss");
    (lit "command.py", lit "endstone.command");
    (lit "damage.py", lit "endstone.damage");
    (lit "enchantments.py", lit "endstone.enchantments");
    (lit "event.py", lit "endstone.event");
    (lit "form.py", lit "endstone.form");
    (lit "inventory.py", lit "endstone.inventory");
    (lit "lang.py", lit "endstone.lang");
    (lit "level.py", lit "endstone.level");
    (lit "map.py", lit "endstone.map");
    (lit "permissions.py", lit "endstone.permissions");
    (lit "plugin.py", lit "endstone.plugin");
    (lit "scheduler.py", lit "endstone.scheduler");
    (lit "scoreboard.py", lit "endstone.scoreboard");
    (lit "util.py", lit "endstone.util") ].

(** What the loader can find under the reference directory.  A file is
    [Inaccessible] when [file_path.exists()] itself raises (its directory
    cannot be searched): that call is outside the [try], so the error
    leaves the loader. *)
Inductive file_status : Type :=
| Missing
| Unreadable
| Readable (text_ : str)
| Inaccessible.

Section Loader.

(** The reference directory: the state of each file name and the
    rendering of its path. *)
Variable ref_dir : str -> file_status.
Variable path_str : str -> str.

(** One pass of the loop over [core_modules]; [None] when the pass
    raises. *)
Definition load_step (modules : module_index) (entry : str * str)
  : option module_index :=
  let '(file_name, module_name) := entry in
  match ref_dir file_name with
  | Inaccessible => None         (* exists() raises, outside the try *)
  | Missing => Some modules      (* exists() is false *)
  | Unreadable => Some modules   (* read_text raises: logged, skipped *)
  | Readable text_ =>
      Some (Dict.set modules module_name
              (mk_module_info (path_str file_name) (_extract_exports text_)
                 text_))
  end.

(** The loop: the first pass that raises ends the loader. *)
Fixpoint load_loop (entries : list (str * str)) (modules : module_index)
  : option module_index :=
  match entries with
  | [] => Some modules
  | entry :: rest =>
      match load_step modules entry with
      | Some modules' => load_loop rest modules'
      | None => None
      end
  end.

(** [None]: the loader raised and no index exists. *)
Definition _load_endstone_modules : option module_index :=
  load_loop core_modules Dict.empty.

End Loader.

(* ================================================================== *)
(** ** Tool results *)
(* ================================================================== *)

Record TextContent : Type := mk_TextContent {
  type_ : str;
  text : str
}.

Record CallToolResult : Type := mk_CallToolResult {
  result_content : list TextContent
}.

(** [CallToolResult(content=[TextContent(type="text", text=t)])] *)
Definition text_result (t : str) : CallToolResult :=
  mk_CallToolResult [mk_TextContent (lit "text") t].

(** The text a caller reads back ([result.content[0].text]). *)
Definition result_text (r : CallToolResult) : option str :=
  match result_content r with
  | c :: _ => Some (text c)
  | [] => None
  end.

(** An argument fetched with [arguments.get(...)]: absent is [None].  In a
    condition, [None] and the empty string are both false. *)
Definition given (a : option str) : option str :=
  match a with
  | Some s => if truthy s then Some s else None
  | None => None
  end.

(** [x in xs] for a list of strings. *)
Definition str_in (x : str) (xs : list str) : bool :=
  existsb (str_eqb x) xs.

(* ================================================================== *)
(** ** The tool operations *)
(* ================================================================== *)

(** A run of source lines, each ended by a newline. *)
Definition text_lines (ls : list str) : str :=
  List.concat (map (fun l => l ++ [nl]) ls).

Definition tquote : str := dquote ++ dquote ++ dquote.

(** The pieces [_create_plugin_template] puts together.  Only the base
    piece is an f-string: its doubled braces come out single, the other
    pieces keep theirs. *)
Definition template_base (plugin_name : str) : str :=
  text_lines
    [ lit "from endstone.plugin import Plugin";
      lit "from endstone import Logger";
      lit "";
      lit "class " ++ plugin_name ++ lit "Plugin(Plugin):";
      lit "    ";
      lit "    def __init__(self):";
      lit "        super().__init__()";
      lit "        self.logger: Logger = self.get_logger()";
      lit "    ";
      lit "    def on_enable(self) -> None:";
      lit "        " ++ tquote ++ lit "Called when the plugin is enabled."
        ++ tquote;
      lit "        self.logger.info(f" ++ dquote
        ++ lit "{self.name} v{self.version} has been enabled!" ++ dquote
        ++ lit ")" ].

Definition template_events : str :=
  text_lines
    [ lit "";
      lit "        # Register event handlers";
      lit "        self.register_events()";
      lit "    ";
      lit "    def register_events(self):";
      lit "        " ++ tquote ++ lit "Register event handlers." ++ tquote;
      lit "        from endstone.event import event_handler, PlayerJoinEvent";
      lit "        ";
      lit "        @event_handler";
      lit "        def on_player_join(self, event: PlayerJoinEvent):";
      lit "            player = event.player";
      lit "            self.logger.info(f" ++ dquote
        ++ lit "Player {{player.name}} joined the server!" ++ dquote
        ++ lit ")" ].

Definition template_commands : str :=
  text_lines
    [ lit "";
      lit "        # Register commands";
      lit "        self.register_commands()";
      lit "    ";
      lit "    def register_commands(self):";
      lit "        " ++ tquote ++ lit "Register custom commands." ++ tquote;
      lit "        from endstone.command import Command, CommandExecutor";
      lit "        ";
      lit "        # Example command implementation";
      lit "        pass" ].

Definition template_closing : str :=
  text_lines
    [ lit "";
      lit "    ";
      lit "    def on_disable(self) -> None:";
      lit "        " ++ tquote ++ lit "Called when the plugin is disabled."
        ++ tquote;
      lit "        self.logger.info(f" ++ dquote
        ++ lit "{{self.name}} has been disabled!" ++ dquote ++ lit ")" ].

(** [_create_plugin_template]: [template] is built by successive [+=]. *)
Definition _create_plugin_template (plugin_name : str) (features : list str)
  : str :=
  let template := template_base plugin_name in
  let template :=
    if str_in (lit "events") features then template ++ template_events
    else template in
  let template :=
    if str_in (lit "commands") features then template ++ template_commands
    else template in
  let template := template ++ template_closing in
  template.

Definition _generate_plugin_template (plugin_name : option str)
    (features : list str) : CallToolResult :=
  match given plugin_name with
  | None => text_result (lit "Plugin name is required")
  | Some plugin_name =>
      let template := _create_plugin_template plugin_name features in
      text_result template
  end.

Definition export_item (result : str) (export : str) : str :=
  result ++ lit "- `" ++ export ++ lit "`" ++ [nl].

Section Queries.

(** [self.endstone_modules] *)
Variable endstone_modules : module_index.

(** Python's [str.lower]. *)
Variable lower : str -> str.

Definition _get_module_info (module_name : option str) : CallToolResult :=
  match given module_name with
  | None => text_result (lit "Module name is required")
  | Some module_name =>
      match Dict.get endstone_modules module_name with
      | Some info =>
          let exports := exports info in
          let result := lit "# " ++ module_name ++ [nl; nl] in
          let result :=
            result ++ lit "**File:** " ++ file_path info ++ [nl; nl] in
          let result :=
            result ++ lit "**Exports:** "
              ++ str_of_nat (List.length exports) ++ lit " items"
              ++ [nl; nl] in
          let result :=
            match exports with
            | _ :: _ =>
                fold_left export_item exports
                  (result ++ lit "## Available Exports:" ++ [nl])
            | [] => result ++ lit "No exports found in __all__" ++ [nl]
            end in
          text_result result
      | None =>
          let available := join (lit ", ") (Dict.keys endstone_modules) in
          text_result
            (lit "Module '" ++ module_name
               ++ lit "' not found. Available modules: " ++ available)
      end
  end.

(** The line [_search_exports] appends for a hit. *)
Definition search_line (export module_name : str) : str :=
  lit "- `" ++ export ++ lit "` from `" ++ module_name ++ lit "`".

Definition search_export (query_lower module_name : str)
    (results : list str) (export : str) : list str :=
  if contains query_lower (lower export)
  then results ++ [search_line export module_name]
  else results.

Definition search_module (query_lower : str) (results : list str)
    (item : str * module_info) : list str :=
  let '(module_name, info) := item in
  fold_left (search_export query_lower module_name) (exports info) results.

Definition _search_exports (query : option str) : CallToolResult :=
  match given query with
  | None => text_result (lit "Search query is required")
  | Some query =>
      let query_lower := lower query in
      let results :=
        fold_left (search_module query_lower)
          (Dict.items endstone_modules) [] in
      let result_text :=
        match results with
        | _ :: _ =>
            lit "# Search Results for '" ++ query ++ lit "'" ++ [nl; nl]
              ++ join [nl] results
        | [] => lit "No exports found matching '" ++ query ++ lit "'"
        end in
      text_result result_text
  end.

Definition is_event (e : str) : bool := contains (lit "Event") e.

Definition _get_event_info (event_type : option str) : CallToolResult :=
  match Dict.get endstone_modules (lit "endstone.event") with
  | Some info =>
      let events := exports info in
      let result :=
        match given event_type with
        | Some event_type =>
            if str_in event_type events then
              let result :=
                lit "# " ++ event_type ++ [nl; nl]
                  ++ lit "This event is available in endstone.event module."
                  ++ [nl; nl] in
              let result := result ++ lit "## Usage Example:" ++ [nl; nl] in
              let result :=
                result ++ lit "```python" ++ [nl]
                  ++ lit "from endstone.event import " ++ event_type
                  ++ lit ", event_handler" ++ [nl; nl] in
              let result := result ++ lit "@event_handler" ++ [nl] in
              let result :=
                result ++ lit "def on_"
                  ++ replace (lower event_type) (lit "event") (lit "")
                  ++ lit "(self, event: " ++ event_type ++ lit "):"
                  ++ [nl] in
              let result := result ++ lit "    # Handle the event" ++ [nl] in
              let result := result ++ lit "    pass" ++ [nl] ++ lit "```" in
              result
            else
              lit "Event '" ++ event_type
                ++ lit "' not found. Available events: "
                ++ join (lit ", ") (filter is_event events)
        | None =>
            let event_list := filter is_event events in
            let result :=
              lit "# Available Events ("
                ++ str_of_nat (List.length event_list) ++ lit ")"
                ++ [nl; nl] in
            fold_left export_item event_list result
        end in
      text_result result
  | None => text_result (lit "Event module not found")
  end.

End Queries.

(** [str.lower] on ASCII text. *)
Definition ascii_lower (s : str) : str :=
  map (fun c => if ((65 <=? c) && (c <=? 90))%N then (c + 32)%N else c) s.

Definition sample_index : module_index :=
  [ (lit "endstone.event",
     mk_module_info (lit "event.py")
       [lit "Event"; lit "PlayerJoinEvent"; lit "event_handler"] (lit ""));
    (lit "endstone.form",
     mk_module_info (lit "form.py")
       [lit "ActionForm"; lit "Label"; lit "ModalForm"] (lit "")) ].

(** The hits of a search, as the specification words them: modules in
    index order, then each module's exports in order, kept when the
    lower-cased query occurs in the lower-cased export. *)
Definition search_hits (lower : str -> str) (idx : module_index)
    (query : str) : list (str * str) :=
  flat_map
    (fun item : str * module_info =>
       map (fun e => (e, fst item))
         (filter (fun e => contains (lower query) (lower e))
            (exports (snd item))))
    (Dict.items idx).

(** The line format the specification gives for a hit:
    [export (from module)]. *)
Definition spec_search_line (export module_name : str) : str :=
  export ++ lit " (from " ++ module_name ++ lit ")".


(** Some line of [content] starts, once trimmed, with the marker. *)
Definition has_marker_line (content : str) : bool :=
  existsb (fun line => startswith (strip line) marker) (split nl content).

Definition two_declarations : str :=
  join [nl] [ lit "__all__ = [" ++ quoted "A" ++ lit "]";
              lit "__all__ = [" ++ quoted "B" ++ lit "]" ].

Definition first_declaration : str :=
  lit "__all__ = [" ++ quoted "A" ++ lit "]".

Definition second_declaration : str :=
  lit "__all__ = [" ++ quoted "B" ++ lit "]".

(** What the data model asks of an export name. *)
Definition valid_export (e : str) : Prop :=
  e <> [] /\ startswith e (lit "#") = false.

(** The index the loader builds holds only valid export names. *)
Definition index_valid (d : module_index) : Prop :=
  Forall (fun kv => Forall valid_export (exports (snd kv))) d.

(* ================================================================== *)
(** ** Further definitions used by the properties below *)
(* ================================================================== *)

(** [file_path.exists()] raises for this file. *)
Definition inaccessible (s : file_status) : bool :=
  match s with Inaccessible => true | _ => false end.

(** Some configured file makes [exists()] raise. *)
Definition some_inaccessible (ref_dir : str -> file_status) : bool :=
  existsb (fun e : str * str => inaccessible (ref_dir (fst e))) core_modules.

(** What a pass of the loop leaves in [modules] when it does not raise. *)
Definition store_step (ref_dir : str -> file_status) (path_str : str -> str)
    (modules : module_index) (entry : str * str) : module_index :=
  match load_step ref_dir path_str modules entry with
  | Some modules' => modules'
  | None => modules
  end.

(** The file can be read ([exists()] holds and [read_text] succeeds). *)
Definition readable (s : file_status) : bool :=
  match s with Readable _ => true | _ => false end.

(** A list of strings without repetition, decided with [str_eqb]. *)
Fixpoint distinct (l : list str) : bool :=
  match l with
  | [] => true
  | x :: rest => negb (str_in x rest) && distinct rest
  end.

(** A reference directory holding only [event.py] and [form.py]. *)
Definition sample_ref_dir (file_name : str) : file_status :=
  if str_eqb file_name (lit "event.py") then
    Readable (join [nl] [ lit "__all__ = [";
                         lit "    " ++ quoted "Event" ++ lit ",";
                         lit "    " ++ quoted "PlayerJoinEvent" ++ lit ",";
                         lit "]" ])
  else if str_eqb file_name (lit "form.py") then
    Readable (lit "__all__ = [" ++ quoted "ActionForm" ++ lit ", "
                ++ quoted "ModalForm" ++ lit "]")
  else if str_eqb file_name (lit "util.py") then Unreadable
  else Missing.

Definition sample_path (file_name : str) : str :=
  lit "reference/endstone/" ++ file_name.

(** [s] is empty or its first character is not one [p] strips. *)
Definition starts_clear (p : char -> bool) (s : str) : bool :=
  match s with
  | [] => true
  | c :: _ => negb (p c)
  end.

(** Neither end of [s] would be stripped by [p]. *)
Definition ends_clear (p : char -> bool) (s : str) : bool :=
  starts_clear p s && starts_clear p (rev s).

(** The character tests behind the two [strip(chars)] calls of
    [_parse_list_items]: the double and the single quote. *)
Definition is_dquote (c : char) : bool := existsb (char_eqb c) dquote.
Definition is_squote (c : char) : bool := existsb (char_eqb c) (lit "'").

Definition comma : char := 44%N.
Definition rbracket_char : char := 93%N.

(** A character that ends an entry, a line or the declaration. *)
Definition is_separator (c : char) : bool :=
  char_eqb c nl || char_eqb c comma || char_eqb c rbracket_char.

(** A name that survives being written as a quoted list entry and read
    back: non-empty, free of newline, comma and closing bracket, with no
    white space or quote at either end, and not starting with [#]. *)
Definition plain_name (n : str) : bool :=
  truthy n
  && forallb (fun c => negb (is_separator c)) n
  && ends_clear isspace n
  && ends_clear is_dquote n
  && ends_clear is_squote n
  && negb (startswith n (lit "#")).

(** A name between double quotes. *)
Definition quote_name (n : str) : str := dquote ++ n ++ dquote.

(** A declaration on one line: [__all__ = ["a", "b", ...]]. *)
Definition one_line_declaration (names : list str) : str :=
  lit "__all__ = [" ++ join (lit ", ") (map quote_name names) ++ lit "]".

(** A declaration in block form, one indented entry per line. *)
Definition block_lines (names : list str) : list str :=
  lit "__all__ = ["
    :: map (fun n => lit "    " ++ quote_name n ++ lit ",") names
    ++ [lit "]"].

Definition block_declaration (names : list str) : str :=
  join [nl] (block_lines names).

(** An export name as the extractor can produce it: free of newline,
    comma and closing bracket, and already trimmed. *)
Definition clean_export (e : str) : Prop :=
  ~ In nl e /\ ~ In comma e /\ ~ In rbracket_char e /\ strip e = e.

(** A marker line that leaves the declaration open: it does not hold both
    an opening and a closing bracket. *)
Definition opening_line (l : str) : bool :=
  startswith (strip l) marker
  && negb (contains lbracket (strip l) && contains rbracket (strip l)).

(** A line read as entries inside an open declaration: no marker at its
    start and no closing bracket. *)
Definition entry_line (l : str) : bool :=
  negb (startswith (strip l) marker)
  && negb (contains rbracket (strip l)).

(** A line that closes an open declaration. *)
Definition closing_line (l : str) : bool :=
  negb (startswith (strip l) marker) && contains rbracket (strip l).

Definition lbracket_char : char := 91%N.

(** The content [test_module_parsing] of [test_server.py] feeds the
    extractor: an import line and an empty line before the declaration, an
    empty line and a function after it. *)
Definition test_names : list str :=
  [lit "Class1"; lit "Class2"; lit "function1"; lit "CONSTANT"].

Definition test_before : str :=
  [nl] ++ lit "from some_module import Class1, Class2" ++ [nl].

Definition test_after : str :=
  [nl] ++ lit "def function1():" ++ [nl] ++ lit "    pass" ++ [nl].

Definition test_content : str :=
  test_before ++ nl :: block_declaration test_names ++ nl :: test_after.

(** The arguments of a tool call, typed as the input schemas of
    [handle_list_tools] declare them; a key that is absent is [None]. *)
Record tool_arguments : Type := mk_tool_arguments {
  arg_module_name : option str;
  arg_query : option str;
  arg_plugin_name : option str;
  arg_features : option (list str);
  arg_event_type : option str
}.

(** [handle_call_tool]: with arguments of the declared types none of the
    four operations raises, so the [except] branch is not entered. *)
Definition handle_call_tool (endstone_modules : module_index)
    (lower : str -> str) (name : str) (arguments : tool_arguments)
  : list TextContent :=
  if str_eqb name (lit "get_module_info") then
    result_content
      (_get_module_info endstone_modules (arg_module_name arguments))
  else if str_eqb name (lit "search_exports") then
    result_content
      (_search_exports endstone_modules lower (arg_query arguments))
  else if str_eqb name (lit "generate_plugin_template") then
    result_content
      (_generate_plugin_template (arg_plugin_name arguments)
         (match arg_features arguments with
          | Some features => features
          | None => []
          end))
  else if str_eqb name (lit "get_event_info") then
    result_content
      (_get_event_info endstone_modules lower (arg_event_type arguments))
  else [mk_TextContent (lit "text") (lit "Unknown tool: " ++ name)].

(** The tool names [handle_list_tools] advertises. *)
Definition tool_names : list str :=
  [ lit "get_module_info"; lit "search_exports";
    lit "generate_plugin_template"; lit "get_event_info" ].

(** An index none of whose module names holds a newline and all of whose
    export names are as the extractor produces them. *)
Definition index_clean (d : module_index) : Prop :=
  Forall (fun kv => ~ In nl (fst kv) /\ Forall clean_export (exports (snd kv)))
    d.

Definition no_arguments : tool_arguments :=
  mk_tool_arguments None None None None None.

(** The same directory, except that [exists()] raises for [form.py]. *)
Definition locked_ref_dir (file_name : str) : file_status :=
  if str_eqb file_name (lit "form.py") then Inaccessible
  else sample_ref_dir file_name.

(* ================================================================== *)
(** ** Facts about the string operations *)
(* ================================================================== *)

Lemma char_eqb_refl (c : char) : char_eqb c c = true.
Proof. apply N.eqb_refl. Qed.

Lemma str_eqb_eq (a b : str) : str_eqb a b = true <-> a = b.
Proof.
  revert b; induction a as [|x a IH]; intros [|y b]; simpl;
    try (split; [discriminate|discriminate]); try tauto.
  rewrite andb_true_iff, IH. unfold char_eqb. rewrite N.eqb_eq.
  split; [intros [-> ->]; reflexivity | intros H; inversion H; auto].
Qed.

Lemma split_cons (sep : char) (s : str) :
  exists h r, split sep s = h :: r.
Proof.
  induction s as [|c t [h [r IH]]]; simpl; [eauto|].
  destruct (char_eqb c sep); [eauto|]. rewrite IH; eauto.
Qed.

Lemma split_app (sep : char) (a b : str) :
  split sep (a ++ sep :: b) = split sep a ++ split sep b.
Proof.
  induction a as [|c a IH]; simpl.
  - now rewrite char_eqb_refl.
  - destruct (char_eqb c sep); [now rewrite IH|].
    rewrite IH. destruct (split_cons sep a) as [h [r ->]]. reflexivity.
Qed.

Lemma startswith_app (p s : str) : startswith (p ++ s) p = true.
Proof.
  induction p as [|a p IH]; simpl; [reflexivity|].
  now rewrite char_eqb_refl.
Qed.

Lemma startswith_weaken (s p t : str) :
  startswith s p = true -> startswith (s ++ t) p = true.
Proof.
  revert s; induction p as [|a p IH]; intros [|b s]; simpl; auto;
    try discriminate.
  rewrite !andb_true_iff. intros [-> H]. auto.
Qed.

Lemma contains_self_app (sub t : str) : contains sub (sub ++ t) = true.
Proof.
  destruct (sub ++ t) eqn:E; simpl; rewrite <- E, startswith_app;
    reflexivity.
Qed.

Lemma contains_app_r (sub a b : str) :
  contains sub b = true -> contains sub (a ++ b) = true.
Proof.
  intros H. induction a as [|c a IH]; simpl; [exact H|].
  rewrite IH. apply orb_true_r.
Qed.

Lemma contains_app_l (sub a b : str) :
  contains sub a = true -> contains sub (a ++ b) = true.
Proof.
  induction a as [|c a IH]; simpl.
  - rewrite orb_false_r. destruct sub; simpl; [|discriminate].
    intros _. destruct b; reflexivity.
  - rewrite !orb_true_iff. intros [H|H].
    + left. apply (startswith_weaken (c :: a) sub b H).
    + right. auto.
Qed.

Lemma contains_refl (k : str) : contains k k = true.
Proof.
  pose proof (contains_self_app k []) as H. now rewrite app_nil_r in H.
Qed.

Lemma contains_join (sep k : str) (ks : list str) :
  In k ks -> contains k (join sep ks) = true.
Proof.
  induction ks as [|x rest IH]; [intros []|].
  intros Hin. destruct rest as [|y rest].
  - destruct Hin as [->|[]]. apply contains_refl.
  - change (join sep (x :: y :: rest))
      with (x ++ sep ++ join sep (y :: rest)).
    destruct Hin as [->|Hin].
    + apply contains_self_app.
    + apply contains_app_r, contains_app_r, IH, Hin.
Qed.


Lemma fold_export_item (es : list str) (result : str) :
  fold_left export_item es result =
  result ++ List.concat (map (export_item []) es).
Proof.
  revert result; induction es as [|e es IH]; intros result; simpl.
  - now rewrite app_nil_r.
  - rewrite IH. unfold export_item at 2. simpl.
    unfold export_item at 1. now rewrite <- !app_assoc.
Qed.

(* ================================================================== *)
(** ** The export extractor *)
(* ================================================================== *)

Lemma parse_fold_acc (pieces : list str) (items : list str) :
  fold_left parse_step pieces items =
  items ++ fold_left parse_step pieces [].
Proof.
  revert items; induction pieces as [|p pieces IH]; intros items; simpl.
  - now rewrite app_nil_r.
  - rewrite IH. rewrite (IH (parse_step [] p)).
    unfold parse_step. destruct (keep_item (clean_item p)); simpl.
    + now rewrite <- app_assoc.
    + reflexivity.
Qed.

Lemma keep_item_valid (e : str) : keep_item e = true -> valid_export e.
Proof.
  unfold keep_item, valid_export. rewrite andb_true_iff, negb_true_iff.
  intros [Ht Hs]. split; [|exact Hs]. intros ->. discriminate.
Qed.

Lemma parse_fold_valid (pieces items : list str) :
  Forall valid_export items ->
  Forall valid_export (fold_left parse_step pieces items).
Proof.
  revert items; induction pieces as [|p pieces IH]; intros items H; simpl;
    [exact H|].
  apply IH. unfold parse_step.
  destruct (keep_item (clean_item p)) eqn:K; [|exact H].
  apply Forall_app; split; [exact H|].
  constructor; [apply keep_item_valid, K | constructor].
Qed.

Lemma parse_list_items_valid (items_str : str) :
  Forall valid_export (_parse_list_items items_str).
Proof. apply parse_fold_valid. constructor. Qed.

(** One line of the scan only appends to the list, and what it appends and
    the flag it leaves depend on the flag it found, not on the list. *)
Lemma scan_line_shift (acc : list str) (b : bool) (line : str) :
  scan_line (mk_scan acc b) line =
  mk_scan (acc ++ exports_acc (scan_line (mk_scan [] b) line))
          (in_all_block (scan_line (mk_scan [] b) line)).
Proof.
  unfold scan_line; simpl.
  repeat match goal with
         | |- context [if ?c then _ else _] => destruct c; simpl
         end; now rewrite ?app_nil_r.
Qed.

Lemma scan_lines_shift (lines : list str) (acc : list str) (b : bool) :
  scan_lines (mk_scan acc b) lines =
  mk_scan (acc ++ exports_acc (scan_lines (mk_scan [] b) lines))
          (in_all_block (scan_lines (mk_scan [] b) lines)).
Proof.
  revert acc b; induction lines as [|l lines IH]; intros acc b; simpl.
  - now rewrite app_nil_r.
  - rewrite (scan_line_shift acc b l).
    rewrite IH.
    destruct (scan_line (mk_scan [] b) l) as [acc1 b1] eqn:E; simpl.
    rewrite (IH acc1 b1). simpl. now rewrite app_assoc.
Qed.

Lemma scan_line_valid (st : scan_state) (line : str) :
  Forall valid_export (exports_acc st) ->
  Forall valid_export (exports_acc (scan_line st line)).
Proof.
  intros H. unfold scan_line.
  repeat match goal with
         | |- context [if ?c then _ else _] => destruct c; simpl
         end; auto;
    apply Forall_app; split; auto using parse_list_items_valid.
Qed.

Lemma scan_lines_valid (lines : list str) (st : scan_state) :
  Forall valid_export (exports_acc st) ->
  Forall valid_export (exports_acc (scan_lines st lines)).
Proof.
  revert st; induction lines as [|l lines IH]; intros st H; simpl; auto.
  apply IH, scan_line_valid, H.
Qed.

Lemma scan_lines_no_marker (lines : list str) :
  existsb (fun line => startswith (strip line) marker) lines = false ->
  scan_lines scan_init lines = scan_init.
Proof.
  induction lines as [|l lines IH]; [reflexivity|].
  cbn [existsb]. rewrite orb_false_iff. intros [Hl Hrest].
  assert (E : scan_line scan_init l = scan_init)
    by (unfold scan_line; rewrite Hl; reflexivity).
  unfold scan_lines. cbn [fold_left]. rewrite E. apply IH, Hrest.
Qed.

(** C1, as the specification states it, against the code: a file with two
    one-line declarations.  The second declaration is read too, so the
    result is not the entries of the first declaration alone. *)
Lemma second_declaration_is_read :
  _extract_exports first_declaration = [lit "A"] /\
  in_all_block (scan first_declaration) = false /\
  in_all_block (scan (first_declaration ++ nl :: lit "__all__ = [")) = true /\
  _extract_exports two_declarations = [lit "A"; lit "B"] /\
  _extract_exports two_declarations <> _extract_exports first_declaration.
Proof.
  repeat split; try (vm_compute; reflexivity).
  vm_compute. discriminate.
Qed.

(** After a content whose scan ends outside a declaration, the text on the
    following lines is scanned as a file of its own. *)
Lemma extract_exports_app (c1 c2 : str) :
  in_all_block (scan c1) = false ->
  _extract_exports (c1 ++ nl :: c2) =
  _extract_exports c1 ++ _extract_exports c2.
Proof.
  intros Hout. unfold _extract_exports, scan in *.
  rewrite split_app. unfold scan_lines in *. rewrite fold_left_app.
  fold (scan_lines scan_init (split nl c1)) in *.
  destruct (scan_lines scan_init (split nl c1)) as [acc1 b1] eqn:E1.
  simpl in Hout. subst b1.
  fold (scan_lines (mk_scan acc1 false) (split nl c2)).
  rewrite scan_lines_shift. reflexivity.
Qed.

(** C2: the two reference examples.  The one-line declaration of A, B, C
    gives exactly [A; B; C]; the four-line block form gives exactly
    [X; Y], with or without indentation of the entries. *)
Theorem extract_exports_examples :
  _extract_exports one_line_example = [lit "A"; lit "B"; lit "C"] /\
  _extract_exports block_example = [lit "X"; lit "Y"] /\
  _extract_exports block_example_flat = [lit "X"; lit "Y"].
Proof. repeat split; vm_compute; reflexivity. Qed.

(** C3: every name [_extract_exports] returns is non-empty and does not
    begin with the comment character. *)
Theorem extract_exports_valid (content : str) :
  Forall valid_export (_extract_exports content).
Proof.
  unfold _extract_exports, scan. apply scan_lines_valid. constructor.
Qed.

(** C4: [_extract_exports] returns a list for every content, and on a
    content none of whose lines starts (once trimmed) with the marker that
    list is empty. *)
Theorem extract_exports_total (content : str) :
  exists l : list str,
    _extract_exports content = l /\
    (has_marker_line content = false -> l = []).
Proof.
  exists (_extract_exports content). split; [reflexivity|].
  intros H. unfold _extract_exports, scan.
  rewrite (scan_lines_no_marker _ H). reflexivity.
Qed.

Lemma extract_exports_total_witness :
  has_marker_line (lit "import os") = false /\
  _extract_exports (lit "import os") = [].
Proof.
  split; [reflexivity|].
  destruct (extract_exports_total (lit "import os")) as [l [El Hl]].
  rewrite El. apply Hl. reflexivity.
Defined.

Lemma dict_set_valid (d : module_index) (k : str) (v : module_info) :
  index_valid d -> Forall valid_export (exports v) ->
  index_valid (Dict.set d k v).
Proof.
  unfold index_valid. intros Hd Hv.
  induction d as [|[k' v'] d IH]; simpl.
  - constructor; [exact Hv | constructor].
  - inversion Hd as [|? ? Hhd Htl]; subst.
    destruct (str_eqb k' k); constructor; auto.
Qed.

Lemma load_loop_fold (ref_dir : str -> file_status) (path_str : str -> str)
    (entries : list (str * str)) (d : module_index) :
  load_loop ref_dir path_str entries d =
  if existsb (fun e : str * str => inaccessible (ref_dir (fst e))) entries
  then None
  else Some (fold_left (store_step ref_dir path_str) entries d).
Proof.
  revert d; induction entries as [|[f m] entries IH]; intros d;
    [reflexivity|].
  cbn [load_loop existsb fold_left fst]. unfold store_step at 2.
  unfold load_step.
  destruct (ref_dir f); cbn [inaccessible orb]; try apply IH. reflexivity.
Qed.

Lemma load_endstone_modules_fold (ref_dir : str -> file_status)
    (path_str : str -> str) (idx : module_index) :
  _load_endstone_modules ref_dir path_str = Some idx ->
  idx = fold_left (store_step ref_dir path_str) core_modules Dict.empty.
Proof.
  unfold _load_endstone_modules. rewrite load_loop_fold.
  destruct (existsb _ core_modules); [discriminate|].
  intros H. now inversion H.
Qed.

Lemma load_endstone_modules_valid (ref_dir : str -> file_status)
    (path_str : str -> str) (idx : module_index) :
  _load_endstone_modules ref_dir path_str = Some idx -> index_valid idx.
Proof.
  intros H. apply load_endstone_modules_fold in H. subst idx.
  assert (G : forall entries d, index_valid d ->
                index_valid
                  (fold_left (store_step ref_dir path_str) entries d)).
  { induction entries as [|[f m] entries IH]; intros d Hd; simpl; auto.
    apply IH. unfold store_step, load_step. destruct (ref_dir f); auto.
    apply dict_set_valid; auto. simpl.
    unfold _extract_exports, scan. apply scan_lines_valid. constructor. }
  apply G. constructor.
Qed.

(* ================================================================== *)
(** ** The queries *)
(* ================================================================== *)

Lemma given_truthy (s : str) : truthy s = true -> given (Some s) = Some s.
Proof. intros H. unfold given. now rewrite H. Qed.

Lemma given_absent (a : option str) :
  a = None \/ a = Some [] -> given a = None.
Proof. intros [->| ->]; reflexivity. Qed.

Lemma str_in_iff (x : str) (xs : list str) :
  str_in x xs = true <-> In x xs.
Proof.
  unfold str_in. rewrite existsb_exists. split.
  - intros [y [Hy E]]. apply str_eqb_eq in E. now subst.
  - intros H. exists x. split; [exact H|]. now apply str_eqb_eq.
Qed.

Lemma str_in_ext (x : str) (xs ys : list str) :
  (In x xs <-> In x ys) -> str_in x xs = str_in x ys.
Proof.
  intros H. destruct (str_in x xs) eqn:A, (str_in x ys) eqn:B; auto.
  - apply str_in_iff, H, str_in_iff in A. congruence.
  - apply str_in_iff, H, str_in_iff in B. congruence.
Qed.

Lemma dict_get_none {V : Type} (d : Dict.t V) (k : str) :
  ~ In k (Dict.keys d) -> Dict.get d k = None.
Proof.
  induction d as [|[k' v] d IH]; simpl; [reflexivity|].
  intros H. destruct (str_eqb k' k) eqn:E.
  - apply str_eqb_eq in E. tauto.
  - apply IH. tauto.
Qed.

Section SearchFolds.

Variable lower : str -> str.
Variable query_lower : str.

Lemma search_export_fold (m : str) (es results : list str) :
  fold_left (search_export lower query_lower m) es results =
  results ++ map (fun e => search_line e m) (filter (fun e => contains query_lower (lower e)) es).
Proof.
  revert results; induction es as [|e es IH]; intros results; simpl.
  - now rewrite app_nil_r.
  - rewrite IH. unfold search_export.
    destruct (contains query_lower (lower e)); simpl; [|reflexivity].
    now rewrite <- app_assoc.
Qed.

Lemma search_module_fold (items : list (str * module_info))
    (results : list str) :
  fold_left (search_module lower query_lower) items results =
  results ++
  map (fun h => search_line (fst h) (snd h))
    (flat_map
       (fun item : str * module_info =>
          map (fun e => (e, fst item))
            (filter (fun e => contains query_lower (lower e))
               (exports (snd item))))
       items).
Proof.
  revert results; induction items as [|[m info] items IH];
    intros results; simpl.
  - now rewrite app_nil_r.
  - rewrite IH, search_export_fold, map_app, map_map. simpl.
    now rewrite <- app_assoc.
Qed.

End SearchFolds.

(** C5, as the specification states it, against the code: searching
    [form] in a two-module index.  Two exports match; the text the code
    returns is not made of their [export (from module)] lines, and does not
    contain such a line at all. *)
Lemma search_lines_are_not_spec_lines :
  exists t,
    result_text (_search_exports sample_index ascii_lower (Some (lit "form")))
      = Some t /\
    search_hits ascii_lower sample_index (lit "form") =
      [ (lit "ActionForm", lit "endstone.form");
        (lit "ModalForm", lit "endstone.form") ] /\
    split nl t <>
      map (fun h => spec_search_line (fst h) (snd h))
        (search_hits ascii_lower sample_index (lit "form")) /\
    contains (spec_search_line (lit "ActionForm") (lit "endstone.form")) t
      = false /\
    split nl t =
      [ lit "# Search Results for 'form'"; lit "";
        lit "- `ActionForm` from `endstone.form`";
        lit "- `ModalForm` from `endstone.form`" ].
Proof.
  eexists. split; [reflexivity|].
  repeat split; try (vm_compute; reflexivity).
  vm_compute. discriminate.
Qed.

(** C5 (amended): for a non-empty query, the hits are the exports whose
    lower-cased name contains the lower-cased query, taken module by
    module and export by export in index order.  With no hit the text is
    the message [No exports found matching '<query>']; otherwise it is the
    header [# Search Results for '<query>'], an empty line, and one line
    per hit of the form [- `export` from `module`]. *)
Theorem search_exports_text (idx : module_index) (lower : str -> str)
    (query : str) :
  truthy query = true ->
  result_text (_search_exports idx lower (Some query)) =
  Some
    match search_hits lower idx query with
    | [] => lit "No exports found matching '" ++ query ++ lit "'"
    | _ :: _ =>
        lit "# Search Results for '" ++ query ++ lit "'" ++ [nl; nl]
          ++ join [nl]
               (map (fun h => search_line (fst h) (snd h))
                  (search_hits lower idx query))
    end.
Proof.
  intros Hq. unfold _search_exports. rewrite (given_truthy _ Hq).
  rewrite search_module_fold. cbn [app]. unfold search_hits, Dict.items.
  match goal with
  | |- context [flat_map ?f ?l] => destruct (flat_map f l) as [|h hs]
  end; reflexivity.
Qed.

Lemma search_exports_text_witness :
  truthy (lit "form") = true /\
  result_text (_search_exports sample_index ascii_lower (Some (lit "form"))) =
  Some
    match search_hits ascii_lower sample_index (lit "form") with
    | [] => lit "No exports found matching '" ++ lit "form" ++ lit "'"
    | _ :: _ =>
        lit "# Search Results for '" ++ lit "form" ++ lit "'" ++ [nl; nl]
          ++ join [nl]
               (map (fun h => search_line (fst h) (snd h))
                  (search_hits ascii_lower sample_index (lit "form")))
    end.
Proof.
  split; [reflexivity|].
  apply (search_exports_text sample_index ascii_lower (lit "form")).
  reflexivity.
Defined.

(** C6: for a non-empty module name that is not a key of the index,
    [_get_module_info] returns the text
    [Module '<name>' not found. Available modules: <keys joined by ", ">];
    the text carries the not-found indicator and every known module
    name. *)
Theorem module_not_found_lists_modules (idx : module_index) (name : str) :
  truthy name = true ->
  ~ In name (Dict.keys idx) ->
  exists t,
    result_text (_get_module_info idx (Some name)) = Some t /\
    t = lit "Module '" ++ name ++ lit "' not found. Available modules: "
          ++ join (lit ", ") (Dict.keys idx) /\
    contains (lit "not found") t = true /\
    (forall k, In k (Dict.keys idx) -> contains k t = true).
Proof.
  intros Hname Hkey. unfold _get_module_info.
  rewrite (given_truthy _ Hname), (dict_get_none _ _ Hkey).
  eexists. split; [reflexivity|]. split; [reflexivity|]. split.
  - apply contains_app_r, contains_app_r, contains_app_l. reflexivity.
  - intros k Hk. do 3 apply contains_app_r. apply contains_join, Hk.
Qed.

Lemma module_not_found_lists_modules_witness :
  exists t,
    result_text (_get_module_info sample_index (Some (lit "nope.module")))
      = Some t /\
    t = lit "Module 'nope.module' not found. Available modules: endstone.event, endstone.form".
Proof.
  destruct (module_not_found_lists_modules sample_index (lit "nope.module"))
    as [t [Ht [Et _]]].
  - reflexivity.
  - simpl. intros [H|[H|[]]]; discriminate H.
  - exists t. split; [exact Ht|]. rewrite Et. reflexivity.
Defined.

(** C7: for a non-empty plugin name, the template is the text below,
    every line ended by a newline: the base lines with the name in the
    class line, then the events lines exactly when ["events"] is among
    the features, then the commands lines exactly when ["commands"] is,
    then the closing lines.  Two feature lists that agree on these two
    flags give the same text, whatever their order and their other
    entries. *)
Theorem plugin_template_shape (name : str) (features : list str) :
  truthy name = true ->
  (exists ev cmd : bool,
     (ev = true <-> In (lit "events") features) /\
     (cmd = true <-> In (lit "commands") features) /\
     result_text (_generate_plugin_template (Some name) features) =
     Some
       (List.concat
          (map (fun l => l ++ [nl])
             (
              [ lit "from endstone.plugin import Plugin";
                lit "from endstone import Logger";
                lit "";
                lit "class " ++ name ++ lit "Plugin(Plugin):";
                lit "    ";
                lit "    def __init__(self):";
                lit "        super().__init__()";
                lit "        self.logger: Logger = self.get_logger()";
                lit "    ";
                lit "    def on_enable(self) -> None:";
                lit "        " ++ dquote ++ dquote ++ dquote
                  ++ lit "Called when the plugin is enabled."
                  ++ dquote ++ dquote ++ dquote;
                lit "        self.logger.info(f" ++ dquote
                  ++ lit "{self.name} v{self.version} has been enabled!"
                  ++ dquote ++ lit ")" ]
                ++ (if ev then
                  [ lit "";
                    lit "        # Register event handlers";
                    lit "        self.register_events()";
                    lit "    ";
                    lit "    def register_events(self):";
                    lit "        " ++ dquote ++ dquote ++ dquote
                      ++ lit "Register event handlers."
                      ++ dquote ++ dquote ++ dquote;
                    lit "        from endstone.event import event_handler, PlayerJoinEvent";
                    lit "        ";
                    lit "        @event_handler";
                    lit "        def on_player_join(self, event: PlayerJoinEvent):";
                    lit "            player = event.player";
                    lit "            self.logger.info(f" ++ dquote
                      ++ lit "Player {{player.name}} joined the server!"
                      ++ dquote ++ lit ")" ]
                    else [])
                ++ (if cmd then
                  [ lit "";
                    lit "        # Register commands";
                    lit "        self.register_commands()";
                    lit "    ";
                    lit "    def register_commands(self):";
                    lit "        " ++ dquote ++ dquote ++ dquote
                      ++ lit "Register custom commands."
                      ++ dquote ++ dquote ++ dquote;
                    lit "        from endstone.command import Command, CommandExecutor";
                    lit "        ";
                    lit "        # Example command implementation";
                    lit "        pass" ]
                    else [])
                ++
              [ lit "";
                lit "    ";
                lit "    def on_disable(self) -> None:";
                lit "        " ++ dquote ++ dquote ++ dquote
                  ++ lit "Called when the plugin is disabled."
                  ++ dquote ++ dquote ++ dquote;
                lit "        self.logger.info(f" ++ dquote
                  ++ lit "{{self.name}} has been disabled!"
                  ++ dquote ++ lit ")" ])))) /\
  (forall features' : list str,
     (In (lit "events") features <-> In (lit "events") features') ->
     (In (lit "commands") features <-> In (lit "commands") features') ->
     _generate_plugin_template (Some name) features' =
     _generate_plugin_template (Some name) features).
Proof.
  intros Hname. unfold _generate_plugin_template.
  rewrite (given_truthy _ Hname). unfold _create_plugin_template. split.
  - exists (str_in (lit "events") features),
           (str_in (lit "commands") features).
    split; [apply str_in_iff|]. split; [apply str_in_iff|].
    cbn [result_text text_result result_content text]. f_equal.
    rewrite !map_app, !concat_app.
    destruct (str_in (lit "events") features),
             (str_in (lit "commands") features);
      cbn [map List.concat];
      unfold template_base, template_events, template_commands,
        template_closing, text_lines, tquote;
      cbn [map List.concat];
      now rewrite <- ?app_assoc, ?app_nil_r.
  - intros features' He Hc.
    now rewrite (str_in_ext _ _ _ He), (str_in_ext _ _ _ Hc).
Qed.

Lemma plugin_template_shape_witness :
  result_text
    (_generate_plugin_template (Some (lit "Foo"))
       [lit "commands"; lit "permissions"; lit "events"]) =
  Some
    (List.concat
       (map (fun l => l ++ [nl])
          (
           [ lit "from endstone.plugin import Plugin";
             lit "from endstone import Logger";
             lit "";
             lit "class FooPlugin(Plugin):";
             lit "    ";
             lit "    def __init__(self):";
             lit "        super().__init__()";
             lit "        self.logger: Logger = self.get_logger()";
             lit "    ";
             lit "    def on_enable(self) -> None:";
             lit "        " ++ dquote ++ dquote ++ dquote
               ++ lit "Called when the plugin is enabled."
               ++ dquote ++ dquote ++ dquote;
             lit "        self.logger.info(f" ++ dquote
               ++ lit "{self.name} v{self.version} has been enabled!"
               ++ dquote ++ lit ")" ]
             ++
           [ lit "";
             lit "        # Register event handlers";
             lit "        self.register_events()";
             lit "    ";
             lit "    def register_events(self):";
             lit "        " ++ dquote ++ dquote ++ dquote
               ++ lit "Register event handlers."
               ++ dquote ++ dquote ++ dquote;
             lit "        from endstone.event import event_handler, PlayerJoinEvent";
             lit "        ";
             lit "        @event_handler";
             lit "        def on_player_join(self, event: PlayerJoinEvent):";
             lit "            player = event.player";
             lit "            self.logger.info(f" ++ dquote
               ++ lit "Player {{player.name}} joined the server!"
               ++ dquote ++ lit ")" ]
             ++
           [ lit "";
             lit "        # Register commands";
             lit "        self.register_commands()";
             lit "    ";
             lit "    def register_commands(self):";
             lit "        " ++ dquote ++ dquote ++ dquote
               ++ lit "Register custom commands."
               ++ dquote ++ dquote ++ dquote;
             lit "        from endstone.command import Command, CommandExecutor";
             lit "        ";
             lit "        # Example command implementation";
             lit "        pass" ]
             ++
           [ lit "";
             lit "    ";
             lit "    def on_disable(self) -> None:";
             lit "        " ++ dquote ++ dquote ++ dquote
               ++ lit "Called when the plugin is disabled."
               ++ dquote ++ dquote ++ dquote;
             lit "        self.logger.info(f" ++ dquote
               ++ lit "{{self.name}} has been disabled!"
               ++ dquote ++ lit ")" ]))) /\
  _generate_plugin_template (Some (lit "Foo"))
    [lit "commands"; lit "permissions"; lit "events"] =
  _generate_plugin_template (Some (lit "Foo")) [lit "events"; lit "commands"].
Proof.
  destruct (plugin_template_shape (lit "Foo")
              [lit "commands"; lit "permissions"; lit "events"] eq_refl)
    as [[ev [cmd [Hev [Hcmd Htext]]]] Hsame].
  assert (Eev : ev = true) by (apply Hev; simpl; auto).
  assert (Ecmd : cmd = true) by (apply Hcmd; simpl; auto).
  subst ev cmd. split.
  - rewrite Htext. reflexivity.
  - symmetry. apply Hsame; split; intros _; simpl; auto.
Defined.



(** C9: when the required argument is missing or empty, each of
    [_get_module_info], [_search_exports] and [_generate_plugin_template]
    returns an ordinary text result saying that the argument is
    required. *)
Theorem required_argument_messages (idx : module_index)
    (lower : str -> str) (features : list str) (a : option str) :
  a = None \/ a = Some [] ->
  result_text (_get_module_info idx a) = Some (lit "Module name is required")
  /\ result_text (_search_exports idx lower a)
     = Some (lit "Search query is required")
  /\ result_text (_generate_plugin_template a features)
     = Some (lit "Plugin name is required")
  /\ contains (lit "required") (lit "Module name is required") = true
  /\ contains (lit "required") (lit "Search query is required") = true
  /\ contains (lit "required") (lit "Plugin name is required") = true.
Proof.
  intros Ha. apply given_absent in Ha.
  unfold _get_module_info, _search_exports, _generate_plugin_template.
  rewrite Ha. repeat split.
Qed.

Lemma required_argument_messages_witness :
  result_text (_get_module_info sample_index (Some []))
    = Some (lit "Module name is required")
  /\ result_text (_search_exports sample_index ascii_lower (Some []))
     = Some (lit "Search query is required")
  /\ result_text (_generate_plugin_template (Some []) [lit "events"])
     = Some (lit "Plugin name is required").
Proof.
  destruct (required_argument_messages sample_index ascii_lower
              [lit "events"] (a := Some []))
    as [H1 [H2 [H3 _]]]; [right; reflexivity|].
  repeat split; assumption.
Defined.

(** C10: with the event module in the index, the empty string as event
    type gives the same result as no event type: the count header and the
    list of exports containing ["Event"]. *)
Theorem empty_event_type_lists_events (idx : module_index)
    (lower : str -> str) (info : module_info) :
  Dict.get idx (lit "endstone.event") = Some info ->
  _get_event_info idx lower (Some []) = _get_event_info idx lower None /\
  result_text (_get_event_info idx lower (Some [])) =
  Some (lit "# Available Events ("
          ++ str_of_nat (List.length (filter is_event (exports info)))
          ++ lit ")" ++ [nl; nl]
          ++ List.concat
               (map (fun e => lit "- `" ++ e ++ lit "`" ++ [nl])
                  (filter is_event (exports info)))).
Proof.
  intros Hget. split; [reflexivity|].
  unfold _get_event_info. rewrite Hget.
  cbn [given truthy result_text text_result result_content text].
  rewrite fold_export_item. now rewrite <- !app_assoc.
Qed.

Lemma empty_event_type_lists_events_witness :
  Dict.get sample_index (lit "endstone.event") <> None /\
  result_text (_get_event_info sample_index ascii_lower (Some [])) =
  Some (text_lines [ lit "# Available Events (2)"; lit "";
                     lit "- `Event`"; lit "- `PlayerJoinEvent`" ]).
Proof.
  split; [discriminate|].
  destruct (empty_event_type_lists_events sample_index ascii_lower
              (info := mk_module_info (lit "event.py")
                         [lit "Event"; lit "PlayerJoinEvent";
                          lit "event_handler"] (lit "")))
    as [_ H]; [reflexivity|].
  rewrite H. reflexivity.
Defined.

(* ================================================================== *)
(** ** The loader *)
(* ================================================================== *)

Lemma str_eqb_refl (a : str) : str_eqb a a = true.
Proof. now apply str_eqb_eq. Qed.

Lemma str_eqb_neq (a b : str) : a <> b -> str_eqb a b = false.
Proof.
  intros H. destruct (str_eqb a b) eqn:E; [|reflexivity].
  apply str_eqb_eq in E. contradiction.
Qed.

Lemma distinct_NoDup (l : list str) : distinct l = true -> NoDup l.
Proof.
  induction l as [|x l IH]; simpl; [constructor|].
  rewrite andb_true_iff, negb_true_iff. intros [Hx Hl].
  constructor; [|auto]. intros Hin. apply str_in_iff in Hin. congruence.
Qed.

Lemma core_modules_distinct : NoDup (map snd core_modules).
Proof. apply distinct_NoDup. vm_compute. reflexivity. Qed.

Lemma dict_get_set_same {V : Type} (d : Dict.t V) (k : str) (v : V) :
  Dict.get (Dict.set d k v) k = Some v.
Proof.
  induction d as [|[k' v'] d IH]; simpl.
  - now rewrite str_eqb_refl.
  - destruct (str_eqb k' k) eqn:E; simpl; now rewrite E.
Qed.

Lemma dict_get_set_other {V : Type} (d : Dict.t V) (k k' : str) (v : V) :
  k <> k' -> Dict.get (Dict.set d k v) k' = Dict.get d k'.
Proof.
  intros Hne. induction d as [|[k0 v0] d IH]; simpl.
  - now rewrite (str_eqb_neq Hne).
  - destruct (str_eqb k0 k) eqn:E; simpl.
    + apply str_eqb_eq in E. subst k0. now rewrite (str_eqb_neq Hne).
    + now rewrite IH.
Qed.

Lemma dict_keys_set_new {V : Type} (d : Dict.t V) (k : str) (v : V) :
  ~ In k (Dict.keys d) -> Dict.keys (Dict.set d k v) = Dict.keys d ++ [k].
Proof.
  induction d as [|[k' v'] d IH]; simpl; [reflexivity|].
  intros H. rewrite str_eqb_neq by tauto. simpl. rewrite IH by tauto.
  reflexivity.
Qed.

Section LoaderFacts.

Variable ref_dir : str -> file_status.
Variable path_str : str -> str.

Lemma load_fold_keys (entries : list (str * str)) (d : module_index) :
  NoDup (map snd entries) ->
  (forall m, In m (map snd entries) -> ~ In m (Dict.keys d)) ->
  Dict.keys (fold_left (store_step ref_dir path_str) entries d) =
  Dict.keys d
    ++ map snd (filter (fun e => readable (ref_dir (fst e))) entries).
Proof.
  revert d; induction entries as [|[f m] entries IH]; intros d Hnd Hnew;
    [simpl; now rewrite app_nil_r|].
  inversion Hnd as [|? ? Hm Hrest]; subst.
  assert (Hskip :
            Dict.keys (fold_left (store_step ref_dir path_str) entries d) =
            Dict.keys d
              ++ map snd (filter (fun e => readable (ref_dir (fst e)))
                            entries)).
  { apply IH; [exact Hrest|]. intros m' Hm'. apply Hnew. now right. }
  cbn [fold_left filter fst]. unfold store_step at 2. unfold load_step.
  destruct (ref_dir f) eqn:Ef; cbn [readable]; try exact Hskip.
  cbn [map snd]. rewrite IH; [|exact Hrest|].
  - rewrite dict_keys_set_new by (apply Hnew; now left).
    now rewrite <- app_assoc.
  - intros m' Hm'. rewrite dict_keys_set_new by (apply Hnew; now left).
    rewrite in_app_iff. intros [H|[H|[]]].
    + revert H. apply Hnew. now right.
    + subst m'. apply Hm, Hm'.
Qed.

Lemma load_fold_get_other (entries : list (str * str)) (d : module_index)
    (m : str) :
  ~ In m (map snd entries) ->
  Dict.get (fold_left (store_step ref_dir path_str) entries d) m =
  Dict.get d m.
Proof.
  revert d; induction entries as [|[f1 m1] entries IH]; intros d Hm;
    [reflexivity|].
  cbn [fold_left]. simpl in Hm. rewrite IH by tauto.
  unfold store_step, load_step.
  destruct (ref_dir f1); try reflexivity.
  apply dict_get_set_other. tauto.
Qed.

Lemma load_fold_get (entries : list (str * str)) (d : module_index)
    (f m : str) :
  NoDup (map snd entries) ->
  In (f, m) entries ->
  Dict.get (fold_left (store_step ref_dir path_str) entries d) m =
  match ref_dir f with
  | Readable text_ =>
      Some (mk_module_info (path_str f) (_extract_exports text_) text_)
  | _ => Dict.get d m
  end.
Proof.
  revert d; induction entries as [|[f1 m1] entries IH]; intros d Hnd Hin;
    [destruct Hin|].
  inversion Hnd as [|? ? Hm1 Hrest]; subst. cbn [fold_left].
  destruct Hin as [E|Hin].
  - inversion E; subst f1 m1. rewrite load_fold_get_other by exact Hm1.
    unfold store_step, load_step.
    destruct (ref_dir f); try reflexivity. apply dict_get_set_same.
  - assert (Hne : m1 <> m).
    { intros ->. apply Hm1. apply (in_map snd) in Hin. exact Hin. }
    rewrite (IH _ Hrest Hin).
    unfold store_step, load_step.
    destruct (ref_dir f); try reflexivity;
      destruct (ref_dir f1); try reflexivity;
      now apply dict_get_set_other.
Qed.

End LoaderFacts.

Lemma filter_keeps_distinct (p : str * str -> bool) (l : list (str * str)) :
  NoDup (map snd l) -> NoDup (map snd (filter p l)).
Proof.
  induction l as [|e l IH]; simpl; intros H; [constructor|].
  inversion H as [|? ? Hx Hl]; subst.
  destruct (p e); simpl; [|auto].
  constructor; [|auto]. intros Hin. apply Hx.
  apply in_map_iff in Hin. destruct Hin as [e' [E He']].
  apply filter_In in He'. rewrite <- E. apply in_map, He'.
Qed.

(** X1: when [exists()] raises for one of the configured files the loader
    raises and builds no index.  Otherwise it returns an index whose keys
    are the module names of the configured files that could be read, in
    the configured order and without repetition; a file that is missing,
    or whose reading fails, leaves no key. *)
Theorem load_endstone_modules_keys (ref_dir : str -> file_status)
    (path_str : str -> str) :
  if some_inaccessible ref_dir
  then _load_endstone_modules ref_dir path_str = None
  else
    exists idx,
      _load_endstone_modules ref_dir path_str = Some idx /\
      Dict.keys idx =
        map snd (filter (fun e => readable (ref_dir (fst e))) core_modules)
      /\ NoDup (Dict.keys idx).
Proof.
  unfold _load_endstone_modules, some_inaccessible.
  rewrite load_loop_fold.
  destruct (existsb _ core_modules); [reflexivity|].
  eexists. split; [reflexivity|].
  assert (K : Dict.keys
                (fold_left (store_step ref_dir path_str) core_modules
                   Dict.empty) =
              map snd (filter (fun e => readable (ref_dir (fst e)))
                         core_modules)).
  { rewrite load_fold_keys; [reflexivity|apply core_modules_distinct|].
    intros m _ []. }
  split; [exact K|]. rewrite K.
  apply filter_keeps_distinct, core_modules_distinct.
Qed.

Lemma load_endstone_modules_keys_witness :
  _load_endstone_modules locked_ref_dir sample_path = None /\
  exists idx,
    _load_endstone_modules sample_ref_dir sample_path = Some idx /\
    Dict.keys idx = [lit "endstone.event"; lit "endstone.form"].
Proof.
  split.
  - exact (load_endstone_modules_keys locked_ref_dir sample_path).
  - destruct (load_endstone_modules_keys sample_ref_dir sample_path)
      as [idx [Hload [Hkeys _]]].
    exists idx. split; [exact Hload|]. rewrite Hkeys. reflexivity.
Defined.

(** X2: in an index the loader returned, a configured module name has
    the record of its file's path, the exports extracted from the file's
    text and the text itself when the file could be read, and has no
    entry when the file is missing or its reading failed; no index is
    returned when [exists()] raises for the file. *)
Theorem load_endstone_modules_lookup (ref_dir : str -> file_status)
    (path_str : str -> str) (file_name module_name : str)
    (idx : module_index) :
  In (file_name, module_name) core_modules ->
  _load_endstone_modules ref_dir path_str = Some idx ->
  match ref_dir file_name with
  | Readable text_ =>
      Dict.get idx module_name =
      Some (mk_module_info (path_str file_name) (_extract_exports text_)
              text_)
  | Unreadable => Dict.get idx module_name = None
  | Missing => Dict.get idx module_name = None
  | Inaccessible => False
  end.
Proof.
  intros Hin Hload.
  assert (Hacc : ref_dir file_name <> Inaccessible).
  { intros E. unfold _load_endstone_modules in Hload.
    rewrite load_loop_fold in Hload.
    assert (T : existsb (fun e : str * str => inaccessible (ref_dir (fst e)))
                  core_modules = true).
    { apply existsb_exists. exists (file_name, module_name).
      split; [exact Hin|]. cbn [fst]. now rewrite E. }
    rewrite T in Hload. discriminate Hload. }
  apply load_endstone_modules_fold in Hload. subst idx.
  rewrite (@load_fold_get ref_dir path_str core_modules Dict.empty
             file_name module_name core_modules_distinct Hin).
  destruct (ref_dir file_name); try reflexivity. now apply Hacc.
Qed.

Lemma load_endstone_modules_lookup_witness :
  exists idx,
    _load_endstone_modules sample_ref_dir sample_path = Some idx /\
    Dict.get idx (lit "endstone.form") =
    Some (mk_module_info (lit "reference/endstone/form.py")
            [lit "ActionForm"; lit "ModalForm"]
            (lit "__all__ = [" ++ quoted "ActionForm" ++ lit ", "
               ++ quoted "ModalForm" ++ lit "]")) /\
    Dict.get idx (lit "endstone.util") = None /\
    Dict.get idx (lit "endstone.actor") = None.
Proof.
  eexists. split; [reflexivity|].
  assert (Hform : In (lit "form.py", lit "endstone.form") core_modules).
  { unfold core_modules. do 9 right. left. reflexivity. }
  assert (Hutil : In (lit "util.py", lit "endstone.util") core_modules).
  { unfold core_modules. do 18 right. left. reflexivity. }
  assert (Hactor : In (lit "actor.py", lit "endstone.actor") core_modules).
  { unfold core_modules. right. left. reflexivity. }
  split; [|split].
  - exact (@load_endstone_modules_lookup sample_ref_dir sample_path
             (lit "form.py") (lit "endstone.form") _ Hform eq_refl).
  - exact (@load_endstone_modules_lookup sample_ref_dir sample_path
             (lit "util.py") (lit "endstone.util") _ Hutil eq_refl).
  - exact (@load_endstone_modules_lookup sample_ref_dir sample_path
             (lit "actor.py") (lit "endstone.actor") _ Hactor eq_refl).
Defined.

(** X3: a module name that is not configured is never a key of an index
    the loader returned, whatever the reference directory holds. *)
Theorem load_endstone_modules_unknown (ref_dir : str -> file_status)
    (path_str : str -> str) (module_name : str) (idx : module_index) :
  _load_endstone_modules ref_dir path_str = Some idx ->
  ~ In module_name (map snd core_modules) ->
  Dict.get idx module_name = None.
Proof.
  intros Hload H. apply load_endstone_modules_fold in Hload. subst idx.
  now rewrite load_fold_get_other.
Qed.

Lemma load_endstone_modules_unknown_witness :
  exists idx,
    _load_endstone_modules sample_ref_dir sample_path = Some idx /\
    Dict.get idx (lit "endstone.network") = None.
Proof.
  eexists. split; [reflexivity|].
  apply (@load_endstone_modules_unknown sample_ref_dir sample_path
           (lit "endstone.network") _ eq_refl).
  intros H. apply str_in_iff in H. vm_compute in H. discriminate H.
Defined.

(* ================================================================== *)
(** ** More on the string operations *)
(* ================================================================== *)

Lemma firstn_incl_self {A : Type} (n : nat) (l : list A) :
  incl (firstn n l) l.
Proof.
  revert l; induction n as [|n IH]; intros [|x l]; simpl;
    intros y Hy; try (now destruct Hy).
  destruct Hy as [->|H]; [now left|right; now apply IH].
Qed.

Lemma skipn_incl_self {A : Type} (n : nat) (l : list A) :
  incl (skipn n l) l.
Proof.
  revert l; induction n as [|n IH]; intros [|x l]; simpl;
    intros y Hy; try exact Hy.
  right. now apply IH.
Qed.

Lemma slice_incl (s : str) (lo hi : Z) : incl (slice s lo hi) s.
Proof.
  unfold slice. intros x H.
  apply firstn_incl_self, skipn_incl_self in H. exact H.
Qed.

Lemma lstrip_by_suffix (p : char -> bool) (s : str) :
  exists dropped, s = dropped ++ lstrip_by p s.
Proof.
  induction s as [|c s [d IH]]; simpl; [now exists []|].
  destruct (p c); [|now exists []].
  exists (c :: d). simpl. now rewrite <- IH.
Qed.

Lemma rstrip_by_prefix (p : char -> bool) (s : str) :
  exists dropped, s = rstrip_by p s ++ dropped.
Proof.
  unfold rstrip_by. destruct (lstrip_by_suffix p (rev s)) as [d Hd].
  exists (rev d). rewrite <- rev_app_distr, <- Hd. now rewrite rev_involutive.
Qed.

Lemma lstrip_by_incl (p : char -> bool) (s : str) : incl (lstrip_by p s) s.
Proof.
  destruct (lstrip_by_suffix p s) as [d Hd]. intros x H.
  rewrite Hd. apply in_or_app. now right.
Qed.

Lemma rstrip_by_incl (p : char -> bool) (s : str) : incl (rstrip_by p s) s.
Proof.
  destruct (rstrip_by_prefix p s) as [d Hd]. intros x H.
  rewrite Hd. apply in_or_app. now left.
Qed.

Lemma strip_by_incl (p : char -> bool) (s : str) : incl (strip_by p s) s.
Proof.
  unfold strip_by. intros x H.
  apply rstrip_by_incl, lstrip_by_incl in H. exact H.
Qed.

Lemma clean_item_incl (item : str) : incl (clean_item item) item.
Proof.
  unfold clean_item, strip, strip_chars. intros x H.
  do 4 apply strip_by_incl in H. exact H.
Qed.

Lemma lstrip_by_clear (p : char -> bool) (s : str) :
  starts_clear p (lstrip_by p s) = true.
Proof.
  induction s as [|c s IH]; simpl; [reflexivity|].
  destruct (p c) eqn:E; [exact IH|]. simpl. now rewrite E.
Qed.

Lemma lstrip_by_id (p : char -> bool) (s : str) :
  starts_clear p s = true -> lstrip_by p s = s.
Proof.
  destruct s as [|c s]; simpl; [reflexivity|].
  rewrite negb_true_iff. now intros ->.
Qed.

Lemma starts_clear_prefix (p : char -> bool) (a b : str) :
  starts_clear p (a ++ b) = true -> a <> [] -> starts_clear p a = true.
Proof. destruct a as [|c a]; simpl; [intros _ H; now destruct H|auto]. Qed.

Lemma strip_by_id (p : char -> bool) (s : str) :
  ends_clear p s = true -> strip_by p s = s.
Proof.
  unfold ends_clear, strip_by, rstrip_by. rewrite andb_true_iff.
  intros [Hl Hr]. rewrite (lstrip_by_id p s Hl), (lstrip_by_id p _ Hr).
  apply rev_involutive.
Qed.

Lemma strip_by_ends_clear (p : char -> bool) (s : str) :
  ends_clear p (strip_by p s) = true.
Proof.
  unfold ends_clear, strip_by. apply andb_true_iff. split.
  - destruct (rstrip_by p (lstrip_by p s)) as [|c u] eqn:E; [reflexivity|].
    destruct (rstrip_by_prefix p (lstrip_by p s)) as [d Hd].
    rewrite E in Hd. pose proof (lstrip_by_clear p s) as Hc.
    rewrite Hd in Hc. exact Hc.
  - unfold rstrip_by. rewrite rev_involutive. apply lstrip_by_clear.
Qed.

Lemma strip_by_idem (p : char -> bool) (s : str) :
  strip_by p (strip_by p s) = strip_by p s.
Proof. apply strip_by_id, strip_by_ends_clear. Qed.

Lemma contains_char_iff (c : char) (s : str) :
  contains [c] s = true <-> In c s.
Proof.
  induction s as [|x s IH]; simpl.
  - split; [discriminate|tauto].
  - rewrite orb_true_iff, IH, andb_true_r. unfold char_eqb.
    rewrite N.eqb_eq. intuition congruence.
Qed.

Lemma contains_char_false (c : char) (s : str) :
  ~ In c s -> contains [c] s = false.
Proof.
  intros H. destruct (contains [c] s) eqn:E; [|reflexivity].
  apply contains_char_iff in E. contradiction.
Qed.

Lemma find_from_skip (c : char) (a b : str) (i : Z) :
  ~ In c a ->
  find_from i (a ++ c :: b) [c] = (i + Z.of_nat (List.length a))%Z.
Proof.
  revert i; induction a as [|x a IH]; intros i Hc.
  - simpl. rewrite char_eqb_refl. simpl. lia.
  - simpl in Hc. cbn [app find_from startswith].
    assert (E : char_eqb c x = false).
    { unfold char_eqb. apply N.eqb_neq. intros ->. tauto. }
    rewrite E. cbn [andb]. rewrite IH by tauto.
    cbn [List.length]. lia.
Qed.

Lemma find_char_prefix_clear (c : char) (s : str) :
  In c s ->
  exists a b, s = a ++ c :: b /\ ~ In c a /\
              find s [c] = Z.of_nat (List.length a).
Proof.
  intros Hin. induction s as [|x s IH]; [destruct Hin|].
  destruct (N.eq_dec x c) as [->|Hne].
  - exists [], s. repeat split; auto. unfold find. simpl.
    now rewrite char_eqb_refl.
  - destruct Hin as [E|Hin]; [congruence|].
    destruct (IH Hin) as [a [b [Es [Ha Ef]]]].
    exists (x :: a), b. subst s. repeat split.
    + simpl. intros [E|E]; [congruence|tauto].
    + assert (Hx : ~ In c (x :: a))
        by (simpl; intros [E|E]; [congruence|tauto]).
      apply (fun H => find_from_skip c (x :: a) b 0 H) in Hx. exact Hx.
Qed.

Lemma slice_middle (a m b : str) :
  slice (a ++ m ++ b) (Z.of_nat (List.length a))
    (Z.of_nat (List.length a + List.length m)) = m.
Proof.
  unfold slice, clamp_index. rewrite !length_app.
  assert (E1 : (Z.of_nat (List.length a) <? 0)%Z = false)
    by (apply Z.ltb_ge; lia).
  assert (E2 : (Z.of_nat (List.length a + List.length m) <? 0)%Z = false)
    by (apply Z.ltb_ge; lia).
  rewrite E1, E2.
  rewrite !Z.min_l by lia.
  replace (Z.to_nat (Z.of_nat (List.length a + List.length m)
                     - Z.of_nat (List.length a))) with (List.length m)
    by lia.
  rewrite Nat2Z.id. rewrite skipn_app, skipn_all, Nat.sub_diag. simpl.
  rewrite firstn_app, firstn_all, Nat.sub_diag. simpl.
  apply app_nil_r.
Qed.

Lemma slice_before_char (c : char) (s : str) (lo : Z) :
  In c s -> ~ In c (slice s lo (find s [c])).
Proof.
  intros Hin. destruct (find_char_prefix_clear c s Hin)
    as [a [b [Es [Ha Ef]]]].
  rewrite Ef. unfold slice. intros H.
  set (len := Z.of_nat (List.length s)) in *.
  assert (Hlen : (Z.of_nat (List.length a) < len)%Z).
  { unfold len. rewrite Es, length_app. simpl. lia. }
  assert (Hh : clamp_index len (Z.of_nat (List.length a))
               = Z.of_nat (List.length a)).
  { unfold clamp_index.
    destruct (Z.of_nat (List.length a) <? 0)%Z eqn:E;
      [apply Z.ltb_lt in E; lia | lia]. }
  rewrite Hh in H.
  assert (Hl : (0 <= clamp_index len lo)%Z).
  { assert (0 <= len)%Z by (unfold len; lia).
    unfold clamp_index.
    destruct (lo <? 0)%Z eqn:E; [lia | apply Z.ltb_ge in E; lia]. }
  replace (Z.to_nat (Z.of_nat (List.length a) - clamp_index len lo))
    with (List.length a - Z.to_nat (clamp_index len lo)) in H by lia.
  rewrite <- skipn_firstn_comm in H. apply skipn_incl_self in H.
  rewrite Es, firstn_app, firstn_all, Nat.sub_diag in H. simpl in H.
  rewrite app_nil_r in H. contradiction.
Qed.

Lemma split_pieces (sep : char) (s piece : str) :
  In piece (split sep s) -> incl piece s /\ ~ In sep piece.
Proof.
  revert piece; induction s as [|c s IH]; intros piece; simpl.
  - intros [<-|[]]. split; [apply incl_refl|tauto].
  - destruct (char_eqb c sep) eqn:E.
    + intros [<-|H]; [split; [intros x []|tauto]|].
      destruct (IH _ H) as [Hi Hs]. split; [|exact Hs].
      intros x Hx. right. now apply Hi.
    + destruct (split_cons sep s) as [h [r Hs]]. rewrite Hs in *.
      intros [<-|H].
      * destruct (IH h (or_introl eq_refl)) as [Hi Hn]. split.
        -- intros x [->|Hx]; [now left|right; now apply Hi].
        -- simpl. intros [->|Hx]; [|tauto].
           unfold char_eqb in E. rewrite N.eqb_refl in E. discriminate.
      * destruct (IH piece (or_intror H)) as [Hi Hn]. split; [|exact Hn].
        intros x Hx. right. now apply Hi.
Qed.

Lemma split_no_sep (sep : char) (s : str) :
  ~ In sep s -> split sep s = [s].
Proof.
  induction s as [|c s IH]; simpl; [reflexivity|].
  intros H. assert (E : char_eqb c sep = false).
  { unfold char_eqb. apply N.eqb_neq. intros ->. tauto. }
  rewrite E, IH by tauto. reflexivity.
Qed.

Lemma split_join (sep : char) (ls : list str) :
  ls <> [] -> Forall (fun l => ~ In sep l) ls ->
  split sep (join [sep] ls) = ls.
Proof.
  induction ls as [|l ls IH]; [intros H; now destruct H|].
  intros _ Hall. inversion Hall as [|? ? Hl Hls]; subst.
  destruct ls as [|l' ls'].
  - simpl. now apply split_no_sep.
  - change (join [sep] (l :: l' :: ls'))
      with (l ++ sep :: join [sep] (l' :: ls')).
    rewrite split_app, (split_no_sep sep l Hl), IH;
      [reflexivity|discriminate|].
    exact Hls.
Qed.

(* ================================================================== *)
(** ** More on the export extractor *)
(* ================================================================== *)

Lemma parse_fold_origin (pieces items : list str) (item : str) :
  In item (fold_left parse_step pieces items) ->
  In item items \/ exists piece, In piece pieces /\ item = clean_item piece.
Proof.
  revert items; induction pieces as [|p pieces IH]; intros items; simpl;
    [auto|].
  intros H. destruct (IH _ H) as [Hin|[piece [Hp E]]].
  - unfold parse_step in Hin. destruct (keep_item (clean_item p)).
    + apply in_app_or in Hin. destruct Hin as [Hin|[<-|[]]]; [auto|].
      right. exists p. auto.
    + auto.
  - right. exists piece. auto.
Qed.

Lemma parse_list_items_origin (items_str item : str) :
  In item (_parse_list_items items_str) ->
  incl item items_str /\ ~ In comma item /\ strip item = item.
Proof.
  intros H. apply parse_fold_origin in H.
  destruct H as [[]|[piece [Hp ->]]].
  apply split_pieces in Hp. destruct Hp as [Hi Hc].
  pose proof (clean_item_incl piece) as Hcl. repeat split.
  - intros x Hx. apply Hi, Hcl, Hx.
  - intros Hx. apply Hc, Hcl, Hx.
  - unfold clean_item, strip. apply strip_by_idem.
Qed.

Lemma parse_list_items_clean (items_str : str) :
  ~ In nl items_str -> ~ In rbracket_char items_str ->
  Forall clean_export (_parse_list_items items_str).
Proof.
  intros Hn Hr. apply Forall_forall. intros item H.
  apply parse_list_items_origin in H. destruct H as [Hi [Hc Hs]].
  unfold clean_export. repeat split; auto.
Qed.

Lemma scan_line_clean (st : scan_state) (line : str) :
  ~ In nl line ->
  Forall clean_export (exports_acc st) ->
  Forall clean_export (exports_acc (scan_line st line)).
Proof.
  intros Hnl Hst. unfold scan_line.
  assert (Hs : ~ In nl (strip line)).
  { intros H. apply Hnl. revert H. apply strip_by_incl. }
  assert (Hcut : forall lo,
             contains rbracket (strip line) = true ->
             Forall clean_export
               (_parse_list_items
                  (slice (strip line) lo (find (strip line) rbracket)))).
  { intros lo Hc. change rbracket with [rbracket_char] in *.
    apply contains_char_iff in Hc. apply parse_list_items_clean.
    - intros H. apply Hs. revert H. apply slice_incl.
    - now apply slice_before_char. }
  destruct (startswith (strip line) marker).
  - destruct (contains lbracket (strip line)); cbn [andb]; [|exact Hst].
    destruct (contains rbracket (strip line)) eqn:Hc; [|exact Hst].
    match goal with
    | |- context [if ?c then _ else _] => destruct c
    end; [|exact Hst].
    cbn [exports_acc]. apply Forall_app. split; [exact Hst|].
    now apply Hcut.
  - destruct (in_all_block st); [|exact Hst].
    destruct (contains rbracket (strip line)) eqn:Hc; cbn [exports_acc];
      apply Forall_app; (split; [exact Hst|]).
    + now apply Hcut.
    + apply parse_list_items_clean; [exact Hs|].
      change rbracket with [rbracket_char] in Hc.
      intros H. apply contains_char_iff in H. congruence.
Qed.

Lemma scan_lines_clean (lines : list str) (st : scan_state) :
  Forall (fun l => ~ In nl l) lines ->
  Forall clean_export (exports_acc st) ->
  Forall clean_export (exports_acc (scan_lines st lines)).
Proof.
  revert st; induction lines as [|l lines IH]; intros st Hl Hst; simpl;
    [exact Hst|].
  inversion Hl; subst. apply IH; [assumption|].
  now apply scan_line_clean.
Qed.

Lemma split_lines_no_newline (content : str) :
  Forall (fun l => ~ In nl l) (split nl content).
Proof.
  apply Forall_forall. intros l H. now apply split_pieces in H.
Qed.

(** X4: no name [_extract_exports] returns contains a newline, a comma or
    a closing bracket, and each name is already trimmed: stripping white
    space from it changes nothing. *)
Theorem extract_exports_clean (content : str) :
  Forall clean_export (_extract_exports content).
Proof.
  unfold _extract_exports, scan. apply scan_lines_clean.
  - apply split_lines_no_newline.
  - constructor.
Qed.

Lemma parse_list_items_app (a b : str) :
  _parse_list_items (a ++ comma :: b) =
  _parse_list_items a ++ _parse_list_items b.
Proof.
  unfold _parse_list_items. change 44%N with comma.
  rewrite split_app, fold_left_app. apply parse_fold_acc.
Qed.

(** X5: [_parse_list_items] works piece by piece: the entries of a text
    with a comma in it are the entries of the part before the comma
    followed by the entries of the part after it. *)
Theorem parse_list_items_comma (a b : str) :
  _parse_list_items (a ++ lit "," ++ b) =
  _parse_list_items a ++ _parse_list_items b.
Proof. apply parse_list_items_app. Qed.

Lemma scan_lines_outside (lines : list str) (acc : list str) :
  existsb (fun line => startswith (strip line) marker) lines = false ->
  scan_lines (mk_scan acc false) lines = mk_scan acc false.
Proof.
  intros H. rewrite scan_lines_shift.
  fold scan_init. rewrite (scan_lines_no_marker _ H). simpl.
  now rewrite app_nil_r.
Qed.

(** X6: text around a declaration does not change the result.  With no
    marker line before it and none after it, and the declaration closed,
    the exports of the whole file are the exports of the declaration
    alone. *)
Theorem extract_exports_ignores_surroundings (before decl after : str) :
  has_marker_line before = false ->
  in_all_block (scan decl) = false ->
  has_marker_line after = false ->
  _extract_exports (before ++ nl :: decl ++ nl :: after) =
  _extract_exports decl.
Proof.
  unfold has_marker_line. intros Hb Hd Ha.
  unfold _extract_exports, scan in *.
  rewrite !split_app. unfold scan_lines in *. rewrite !fold_left_app.
  fold (scan_lines scan_init (split nl before)).
  rewrite (scan_lines_no_marker _ Hb).
  fold (scan_lines scan_init (split nl decl)) in *.
  destruct (scan_lines scan_init (split nl decl)) as [acc b].
  simpl in Hd. subst b.
  fold (scan_lines (mk_scan acc false) (split nl after)).
  now rewrite (scan_lines_outside _ acc Ha).
Qed.

Lemma scan_entry_lines (body : list str) (acc : list str) :
  forallb entry_line body = true ->
  scan_lines (mk_scan acc true) body =
  mk_scan (acc ++ flat_map (fun l => _parse_list_items (strip l)) body) true.
Proof.
  revert acc; induction body as [|l body IH]; intros acc.
  - intros _. simpl. now rewrite app_nil_r.
  - cbn [forallb]. rewrite andb_true_iff. intros [Hl Hb].
    unfold entry_line in Hl. rewrite andb_true_iff, !negb_true_iff in Hl.
    destruct Hl as [Hm Hr].
    assert (E : scan_line (mk_scan acc true) l =
                mk_scan (acc ++ _parse_list_items (strip l)) true).
    { unfold scan_line. rewrite Hm, Hr. reflexivity. }
    unfold scan_lines. cbn [fold_left flat_map]. rewrite E.
    fold (scan_lines (mk_scan (acc ++ _parse_list_items (strip l)) true) body).
    rewrite (IH _ Hb). now rewrite <- app_assoc.
Qed.

Lemma scan_opening_line (st : scan_state) (l : str) :
  opening_line l = true -> scan_line st l = mk_scan (exports_acc st) true.
Proof.
  unfold opening_line, scan_line. rewrite andb_true_iff, negb_true_iff.
  intros [-> ->]. reflexivity.
Qed.

Lemma scan_closing_line (acc : list str) (l : str) :
  closing_line l = true ->
  scan_line (mk_scan acc true) l =
  mk_scan
    (acc ++ _parse_list_items (slice (strip l) 0 (find (strip l) rbracket)))
    false.
Proof.
  unfold closing_line, scan_line. rewrite andb_true_iff, negb_true_iff.
  intros [-> ->]. reflexivity.
Qed.

(** X7: a declaration left open.  A marker line that does not hold both
    brackets adds no entry of its own, also when entries follow the
    bracket on that line; every later line without marker and without
    closing bracket is then read as entries, whatever it holds, and the
    declaration is still open after them. *)
Theorem open_declaration_reads_all_lines (st : scan_state) (opening : str)
    (body : list str) :
  opening_line opening = true ->
  forallb entry_line body = true ->
  scan_lines st (opening :: body) =
  mk_scan
    (exports_acc st ++ flat_map (fun l => _parse_list_items (strip l)) body)
    true.
Proof.
  intros Ho Hb. unfold scan_lines. cbn [fold_left].
  rewrite (scan_opening_line st opening Ho).
  apply (scan_entry_lines body (exports_acc st) Hb).
Qed.

Lemma open_declaration_reads_all_lines_witness :
  scan_lines scan_init
    [ lit "__all__ = [" ++ quoted "A" ++ lit ","; quoted "B" ++ lit ",";
      lit "import os" ] =
  mk_scan [lit "B"; lit "import os"] true.
Proof.
  apply (@open_declaration_reads_all_lines scan_init
           (lit "__all__ = [" ++ quoted "A" ++ lit ",")
           [quoted "B" ++ lit ","; lit "import os"]);
    reflexivity.
Defined.

(** X8: a declaration in block form.  After an opening line, the entries
    are those of the lines up to the first line with a closing bracket,
    then those of the text before that bracket; what follows the bracket
    on the closing line is dropped and the declaration is closed. *)
Theorem block_declaration_entries (st : scan_state) (opening closing : str)
    (body : list str) :
  opening_line opening = true ->
  forallb entry_line body = true ->
  closing_line closing = true ->
  scan_lines st (opening :: body ++ [closing]) =
  mk_scan
    (exports_acc st
       ++ flat_map (fun l => _parse_list_items (strip l)) body
       ++ _parse_list_items
            (slice (strip closing) 0 (find (strip closing) rbracket)))
    false.
Proof.
  intros Ho Hb Hc. unfold scan_lines. cbn [fold_left].
  rewrite fold_left_app, (scan_opening_line st opening Ho).
  fold (scan_lines (mk_scan (exports_acc st) true) body).
  rewrite (scan_entry_lines body (exports_acc st) Hb). cbn [fold_left].
  rewrite (scan_closing_line _ closing Hc). now rewrite <- app_assoc.
Qed.

Lemma block_declaration_entries_witness :
  scan_lines scan_init
    [ lit "__all__ = ["; lit "  'A', 'B',"; lit "  'C'] + ['D']" ] =
  mk_scan [lit "A"; lit "B"; lit "C"] false.
Proof.
  apply (@block_declaration_entries scan_init (lit "__all__ = [")
           (lit "  'C'] + ['D']") [lit "  'A', 'B',"]);
    reflexivity.
Defined.

Lemma scan_one_line_declaration (st : scan_state)
    (line head_ items tail_ : str) :
  strip line = head_ ++ lbracket_char :: items ++ rbracket_char :: tail_ ->
  startswith head_ marker = true ->
  ~ In lbracket_char head_ ->
  ~ In rbracket_char head_ ->
  ~ In rbracket_char items ->
  scan_line st line =
  mk_scan (exports_acc st ++ _parse_list_items items) false.
Proof.
  intros Es Hm Hl Hr Hi. unfold scan_line. rewrite Es.
  rewrite (startswith_weaken head_ marker _ Hm).
  change lbracket with [lbracket_char]. change rbracket with [rbracket_char].
  assert (C1 : contains [lbracket_char]
                 (head_ ++ lbracket_char :: items ++ rbracket_char :: tail_)
               = true).
  { apply contains_char_iff, in_or_app. right. now left. }
  assert (C2 : contains [rbracket_char]
                 (head_ ++ lbracket_char :: items ++ rbracket_char :: tail_)
               = true).
  { apply contains_char_iff, in_or_app. right. right.
    apply in_or_app. right. now left. }
  rewrite C1, C2. cbn [andb].
  assert (F1 : find (head_ ++ lbracket_char :: items
                       ++ rbracket_char :: tail_) [lbracket_char]
               = Z.of_nat (List.length head_)).
  { unfold find. now rewrite find_from_skip. }
  assert (F2 : find (head_ ++ lbracket_char :: items
                       ++ rbracket_char :: tail_) [rbracket_char]
               = Z.of_nat (List.length (head_ ++ [lbracket_char])
                           + List.length items)).
  { unfold find.
    replace (head_ ++ lbracket_char :: items ++ rbracket_char :: tail_)
      with ((head_ ++ lbracket_char :: items) ++ rbracket_char :: tail_)
      by (now rewrite <- app_assoc).
    rewrite find_from_skip.
    - rewrite !length_app. simpl. lia.
    - intros H. apply in_app_or in H. destruct H as [H|[H|H]]; auto.
      discriminate H. }
  rewrite F1, F2.
  replace (negb (Z.of_nat (List.length head_) =? -1)%Z) with true
    by (symmetry; apply negb_true_iff, Z.eqb_neq; lia).
  replace (negb (Z.of_nat (List.length (head_ ++ [lbracket_char])
                           + List.length items) =? -1)%Z) with true
    by (symmetry; apply negb_true_iff, Z.eqb_neq; lia).
  cbn [andb].
  replace (Z.of_nat (List.length head_) + 1)%Z
    with (Z.of_nat (List.length (head_ ++ [lbracket_char])))
    by (rewrite length_app; simpl; lia).
  replace (head_ ++ lbracket_char :: items ++ rbracket_char :: tail_)
    with ((head_ ++ [lbracket_char]) ++ items ++ rbracket_char :: tail_)
    by (now rewrite <- app_assoc).
  now rewrite slice_middle.
Qed.

(** X9: a declaration on one line.  When the trimmed line starts with the
    marker and holds an opening bracket and, after it, a closing bracket,
    the entries are those of the text between the first opening and the
    first closing bracket; what follows the closing bracket is dropped
    and the declaration is closed, whatever the state before. *)
Theorem one_line_declaration_entries (st : scan_state)
    (line head_ items tail_ : str) :
  strip line = head_ ++ lbracket_char :: items ++ rbracket_char :: tail_ ->
  startswith head_ marker = true ->
  ~ In lbracket_char head_ ->
  ~ In rbracket_char head_ ->
  ~ In rbracket_char items ->
  scan_line st line =
  mk_scan (exports_acc st ++ _parse_list_items items) false.
Proof. apply scan_one_line_declaration. Qed.

Lemma one_line_declaration_entries_witness :
  scan_line scan_init (lit "  __all__ = ['A', 'B'] + other") =
  mk_scan [lit "A"; lit "B"] false.
Proof.
  apply (@one_line_declaration_entries scan_init
           (lit "  __all__ = ['A', 'B'] + other")
           (lit "__all__ = ") (lit "'A', 'B'") (lit " + other"));
    try reflexivity; intros H; vm_compute in H; intuition discriminate.
Defined.

(* ================================================================== *)
(** ** Writing a declaration and reading it back *)
(* ================================================================== *)

Unset Implicit Arguments.

Lemma rstrip_by_id (p : char -> bool) (s : str) :
  starts_clear p (rev s) = true -> rstrip_by p s = s.
Proof.
  intros H. unfold rstrip_by. rewrite (lstrip_by_id p _ H).
  apply rev_involutive.
Qed.

Lemma starts_clear_rev_last (p : char -> bool) (s : str) (c : char) :
  starts_clear p (rev (s ++ [c])) = negb (p c).
Proof. rewrite rev_app_distr. reflexivity. Qed.

Lemma starts_clear_app (p : char -> bool) (a b : str) :
  a <> [] -> starts_clear p a = true -> starts_clear p (a ++ b) = true.
Proof. destruct a; [intros H; now destruct H|auto]. Qed.

Lemma strip_by_wrapped (p : char -> bool) (c : char) (s : str) :
  p c = true -> s <> [] -> ends_clear p s = true ->
  strip_by p (c :: s ++ [c]) = s.
Proof.
  unfold ends_clear. rewrite andb_true_iff. intros Hc Hs [Hl Hr].
  unfold strip_by. cbn [lstrip_by]. rewrite Hc.
  rewrite (lstrip_by_id p (s ++ [c]))
    by (now apply starts_clear_app).
  unfold rstrip_by. rewrite rev_app_distr. cbn [rev app lstrip_by].
  rewrite Hc. rewrite (lstrip_by_id p _ Hr). apply rev_involutive.
Qed.

Lemma plain_name_facts (n : str) :
  plain_name n = true ->
  n <> [] /\
  (forall c, In c n -> is_separator c = false) /\
  ends_clear isspace n = true /\
  ends_clear is_dquote n = true /\
  ends_clear is_squote n = true /\
  keep_item n = true.
Proof.
  unfold plain_name, keep_item. rewrite !andb_true_iff.
  intros [[[[[Ht Hc] Hs] Hd] Hq] Hh]. repeat split; auto.
  - intros ->. discriminate.
  - intros c Hin. rewrite forallb_forall in Hc.
    apply negb_true_iff. now apply Hc.
Qed.

Lemma is_separator_false (c : char) :
  is_separator c = false ->
  c <> nl /\ c <> comma /\ c <> rbracket_char.
Proof.
  unfold is_separator, char_eqb. rewrite !orb_false_iff, !N.eqb_neq. tauto.
Qed.

Lemma clean_item_quoted (n : str) :
  plain_name n = true -> clean_item (quote_name n) = n.
Proof.
  intros H. destruct (plain_name_facts n H) as [Hne [_ [Hs [Hd [Hq _]]]]].
  unfold clean_item, quote_name, strip, strip_chars.
  change (dquote ++ n ++ dquote) with (34%N :: n ++ [34%N]).
  rewrite (strip_by_id isspace (34%N :: n ++ [34%N])).
  - change (fun c : char => existsb (char_eqb c) dquote) with is_dquote.
    rewrite (@strip_by_wrapped is_dquote 34%N n eq_refl Hne Hd
             : strip_by is_dquote (34%N :: n ++ [34%N]) = n).
    change (fun c : char => existsb (char_eqb c) (lit "'")) with is_squote.
    now rewrite (@strip_by_id is_squote n Hq), (@strip_by_id isspace n Hs).
  - unfold ends_clear. apply andb_true_iff. split; [reflexivity|].
    change (34%N :: n ++ [34%N]) with ((34%N :: n) ++ [34%N]).
    now rewrite starts_clear_rev_last.
Qed.

Lemma quoted_no_separator (n : str) (c : char) :
  plain_name n = true -> In c (quote_name n) ->
  c <> nl /\ c <> comma /\ c <> rbracket_char.
Proof.
  intros H Hin. destruct (plain_name_facts n H) as [_ [Hc _]].
  unfold quote_name in Hin. apply in_app_or in Hin.
  destruct Hin as [[<-|[]]|Hin].
  - repeat split; discriminate.
  - apply in_app_or in Hin. destruct Hin as [Hin|[<-|[]]].
    + apply is_separator_false, Hc, Hin.
    + repeat split; discriminate.
Qed.

Lemma parse_list_items_quoted (n : str) :
  plain_name n = true -> _parse_list_items (quote_name n) = [n].
Proof.
  intros H. unfold _parse_list_items. change 44%N with comma.
  rewrite split_no_sep.
  - cbn [fold_left]. unfold parse_step.
    rewrite (clean_item_quoted n H).
    destruct (plain_name_facts n H) as [_ [_ [_ [_ [_ ->]]]]]. reflexivity.
  - intros Hin. destruct (quoted_no_separator n _ H Hin) as [_ [Hc _]].
    now apply Hc.
Qed.

Lemma parse_list_items_space (s : str) :
  _parse_list_items (32%N :: s) = _parse_list_items s.
Proof.
  unfold _parse_list_items. cbn [split].
  change (char_eqb 32%N 44%N) with false. cbv iota.
  destruct (split_cons 44%N s) as [h [r ->]]. cbn [fold_left].
  reflexivity.
Qed.

Lemma parse_list_items_joined (names : list str) :
  forallb plain_name names = true ->
  _parse_list_items (join (lit ", ") (map quote_name names)) = names.
Proof.
  induction names as [|n names IH]; [reflexivity|].
  cbn [forallb]. rewrite andb_true_iff. intros [Hn Hrest].
  destruct names as [|n' names'].
  - simpl. now apply parse_list_items_quoted.
  - change (join (lit ", ") (map quote_name (n :: n' :: names')))
      with (quote_name n ++ comma
              :: 32%N :: join (lit ", ") (map quote_name (n' :: names'))).
    rewrite parse_list_items_app, parse_list_items_space.
    rewrite (parse_list_items_quoted n Hn), (IH Hrest). reflexivity.
Qed.

Lemma joined_no_line_end (names : list str) (c : char) :
  forallb plain_name names = true ->
  In c (join (lit ", ") (map quote_name names)) ->
  c <> nl /\ c <> rbracket_char.
Proof.
  induction names as [|n names IH]; [intros _ []|].
  cbn [forallb]. rewrite andb_true_iff. intros [Hn Hrest].
  destruct names as [|n' names'].
  - simpl. intros Hin.
    destruct (quoted_no_separator n _ Hn Hin) as [? [_ ?]]. auto.
  - change (join (lit ", ") (map quote_name (n :: n' :: names')))
      with (quote_name n ++ comma
              :: 32%N :: join (lit ", ") (map quote_name (n' :: names'))).
    intros Hin. apply in_app_or in Hin. destruct Hin as [Hin|[<-|[<-|Hin]]].
    + destruct (quoted_no_separator n _ Hn Hin) as [? [_ ?]]. auto.
    + split; discriminate.
    + split; discriminate.
    + now apply IH.
Qed.

Lemma one_line_declaration_reads (names : list str) :
  forallb plain_name names = true ->
  _extract_exports (one_line_declaration names) = names.
Proof.
  intros H. unfold _extract_exports, scan, one_line_declaration.
  set (items := join (lit ", ") (map quote_name names)).
  assert (Hi : forall c, In c items -> c <> nl /\ c <> rbracket_char)
    by (intros c; now apply joined_no_line_end).
  change (lit "__all__ = [" ++ items ++ lit "]")
    with (lit "__all__ = " ++ lbracket_char :: items ++ [rbracket_char]).
  rewrite split_no_sep.
  - unfold scan_lines. cbn [fold_left].
    rewrite (@scan_one_line_declaration scan_init _
               (lit "__all__ = ") items []).
    + cbn [exports_acc app]. now apply parse_list_items_joined.
    + apply strip_by_id. unfold ends_clear.
      apply andb_true_iff. split; [reflexivity|].
      replace (lit "__all__ = " ++ lbracket_char :: items ++ [rbracket_char])
        with ((lit "__all__ = " ++ lbracket_char :: items)
                ++ [rbracket_char])
        by (now rewrite <- app_assoc).
      now rewrite starts_clear_rev_last.
    + reflexivity.
    + intros Hin. vm_compute in Hin. intuition discriminate.
    + intros Hin. vm_compute in Hin. intuition discriminate.
    + intros Hin. now apply Hi in Hin.
  - intros Hin. apply in_app_or in Hin. destruct Hin as [Hin|[Hin|Hin]].
    + vm_compute in Hin. intuition discriminate.
    + discriminate Hin.
    + apply in_app_or in Hin. destruct Hin as [Hin|[Hin|[]]].
      * now apply Hi in Hin.
      * discriminate Hin.
Qed.

(** X10: a one-line declaration reads back.  For names that are plain
    (non-empty, no newline, comma or closing bracket, no white space or
    quote at either end, no leading [#]), the text
    [__all__ = ["n1", "n2", ...]] gives exactly the names, in order and
    with repetitions kept; the empty list gives no name. *)
Theorem one_line_declaration_round_trip (names : list str) :
  forallb plain_name names = true ->
  _extract_exports (one_line_declaration names) = names.
Proof. apply one_line_declaration_reads. Qed.

Lemma one_line_declaration_round_trip_witness :
  _extract_exports
    (one_line_declaration [lit "Item1"; lit "Item2"; lit "Item1"]) =
  [lit "Item1"; lit "Item2"; lit "Item1"].
Proof.
  apply (one_line_declaration_round_trip
           [lit "Item1"; lit "Item2"; lit "Item1"]).
  reflexivity.
Defined.

Lemma lstrip_by_drop (p : char -> bool) (c : char) (s : str) :
  p c = true -> lstrip_by p (c :: s) = lstrip_by p s.
Proof. intros H. simpl. now rewrite H. Qed.

Lemma entry_text_strip (n : str) :
  strip (lit "    " ++ quote_name n ++ lit ",") = quote_name n ++ [comma].
Proof.
  change (lit "    " ++ quote_name n ++ lit ",")
    with (32%N :: 32%N :: 32%N :: 32%N :: quote_name n ++ [comma]).
  unfold strip, strip_by.
  rewrite !(lstrip_by_drop isspace 32%N) by reflexivity.
  change (quote_name n ++ [comma]) with ((34%N :: n ++ [34%N]) ++ [comma]).
  rewrite (@lstrip_by_id isspace ((34%N :: n ++ [34%N]) ++ [comma])
             eq_refl).
  apply rstrip_by_id. now rewrite starts_clear_rev_last.
Qed.

Lemma entry_text_parse (n : str) :
  plain_name n = true -> _parse_list_items (quote_name n ++ [comma]) = [n].
Proof.
  intros H. rewrite parse_list_items_app.
  now rewrite (parse_list_items_quoted n H).
Qed.

Lemma entry_text_is_entry_line (n : str) :
  plain_name n = true ->
  entry_line (lit "    " ++ quote_name n ++ lit ",") = true.
Proof.
  intros H. unfold entry_line. rewrite entry_text_strip.
  apply andb_true_iff. split; [reflexivity|].
  apply negb_true_iff. change rbracket with [rbracket_char].
  apply contains_char_false. intros Hin. apply in_app_or in Hin.
  destruct Hin as [Hin|[Hin|[]]]; [|discriminate Hin].
  destruct (quoted_no_separator n _ H Hin) as [_ [_ Hr]]. now apply Hr.
Qed.

Lemma entry_text_no_newline (n : str) :
  plain_name n = true ->
  ~ In nl (lit "    " ++ quote_name n ++ lit ",").
Proof.
  intros H Hin. apply in_app_or in Hin. destruct Hin as [Hin|Hin].
  - vm_compute in Hin. intuition discriminate.
  - apply in_app_or in Hin. destruct Hin as [Hin|[Hin|[]]];
      [|discriminate Hin].
    destruct (quoted_no_separator n _ H Hin) as [Hn _]. now apply Hn.
Qed.

Lemma block_lines_scan (names : list str) :
  forallb plain_name names = true ->
  scan_lines scan_init (block_lines names) = mk_scan names false.
Proof.
  intros H. unfold block_lines, scan_lines. cbn [fold_left].
  rewrite fold_left_app.
  rewrite (scan_opening_line scan_init (lit "__all__ = [") eq_refl).
  set (entry := fun n : str => lit "    " ++ quote_name n ++ lit ",").
  change (fold_left scan_line (map entry names)
            (mk_scan (exports_acc scan_init) true))
    with (scan_lines (mk_scan (exports_acc scan_init) true)
            (map entry names)).
  rewrite scan_entry_lines.
  - cbn [fold_left].
    rewrite (scan_closing_line _ (lit "]") eq_refl).
    change (_parse_list_items
              (slice (strip (lit "]")) 0 (find (strip (lit "]")) rbracket)))
      with (@nil str).
    rewrite app_nil_r. cbn [exports_acc scan_init app]. f_equal.
    clear -H. induction names as [|n names IH]; [reflexivity|].
    cbn [forallb] in H. apply andb_true_iff in H. destruct H as [Hn Hr].
    cbn [map flat_map]. unfold entry at 1.
    rewrite entry_text_strip, (entry_text_parse n Hn), (IH Hr). reflexivity.
  - clear -H. induction names as [|n names IH]; [reflexivity|].
    cbn [forallb] in H. apply andb_true_iff in H. destruct H as [Hn Hr].
    cbn [map forallb]. unfold entry at 1.
    now rewrite (entry_text_is_entry_line n Hn), (IH Hr).
Qed.

Lemma block_lines_split (names : list str) :
  forallb plain_name names = true ->
  split nl (block_declaration names) = block_lines names.
Proof.
  intros H. unfold block_declaration. apply split_join.
  - discriminate.
  - unfold block_lines. constructor.
    + intros Hin. vm_compute in Hin. intuition discriminate.
    + apply Forall_app. split.
      * apply Forall_forall. intros l Hl. apply in_map_iff in Hl.
        destruct Hl as [n [<- Hn]]. apply entry_text_no_newline.
        rewrite forallb_forall in H. now apply H.
      * constructor; [|constructor].
        intros Hin. vm_compute in Hin. intuition discriminate.
Qed.

(** X11: a block declaration reads back.  For plain names, the text with
    [__all__ = [] on the first line, one indented line ["name",] per name
    and a closing bracket on the last line gives exactly the names, in
    order, and leaves the declaration closed. *)
Theorem block_declaration_round_trip (names : list str) :
  forallb plain_name names = true ->
  _extract_exports (block_declaration names) = names /\
  in_all_block (scan (block_declaration names)) = false.
Proof.
  intros H. unfold _extract_exports, scan.
  rewrite (block_lines_split names H), (block_lines_scan names H).
  split; reflexivity.
Qed.

Lemma block_declaration_round_trip_witness :
  _extract_exports (block_declaration test_names) = test_names /\
  in_all_block (scan (block_declaration test_names)) = false.
Proof. apply (block_declaration_round_trip test_names). reflexivity. Defined.

Lemma extract_exports_ignores_surroundings_witness :
  _extract_exports test_content =
  [lit "Class1"; lit "Class2"; lit "function1"; lit "CONSTANT"].
Proof.
  unfold test_content.
  rewrite (@extract_exports_ignores_surroundings test_before
             (block_declaration test_names) test_after);
    reflexivity.
Defined.

(* ================================================================== *)
(** ** More on the queries *)
(* ================================================================== *)

(** X12: for a non-empty module name that is a key of the index,
    [_get_module_info] gives the heading with the name, the file path,
    the number of exports and then either one line [- `export`] per
    export, in order, under [## Available Exports:], or the line
    [No exports found in __all__] when the module has none. *)
Theorem module_info_found (idx : module_index) (name : str)
    (info : module_info) :
  truthy name = true ->
  Dict.get idx name = Some info ->
  result_text (_get_module_info idx (Some name)) =
  Some (lit "# " ++ name ++ [nl; nl]
          ++ lit "**File:** " ++ file_path info ++ [nl; nl]
          ++ lit "**Exports:** " ++ str_of_nat (List.length (exports info))
          ++ lit " items" ++ [nl; nl]
          ++ match exports info with
             | [] => lit "No exports found in __all__" ++ [nl]
             | _ :: _ =>
                 lit "## Available Exports:" ++ [nl]
                   ++ List.concat
                        (map (fun e => lit "- `" ++ e ++ lit "`" ++ [nl])
                           (exports info))
             end).
Proof.
  intros Hname Hget. unfold _get_module_info.
  rewrite (given_truthy name Hname), Hget.
  cbn [result_text text_result result_content text]. f_equal.
  destruct (exports info) as [|e es] eqn:E.
  - now rewrite <- !app_assoc.
  - rewrite fold_export_item. now rewrite <- !app_assoc.
Qed.

Lemma module_info_found_witness :
  result_text (_get_module_info sample_index (Some (lit "endstone.form"))) =
  Some (text_lines
          [ lit "# endstone.form"; lit ""; lit "**File:** form.py"; lit "";
            lit "**Exports:** 3 items"; lit "";
            lit "## Available Exports:"; lit "- `ActionForm`";
            lit "- `Label`"; lit "- `ModalForm`" ]).
Proof.
  rewrite (module_info_found sample_index (lit "endstone.form")
             (mk_module_info (lit "form.py")
                [lit "ActionForm"; lit "Label"; lit "ModalForm"] (lit "")));
    reflexivity.
Defined.



(** X14: the event listing follows the reference directory.  On an
    index the loader returned: when [event.py] could be read, the listing
    is built from the exports extracted from its text; when it is missing
    or its reading failed, every call of [_get_event_info], with or
    without an event type, answers [Event module not found].  No index is
    returned when [exists()] raises for [event.py]. *)
Theorem event_info_on_loaded_index (ref_dir : str -> file_status)
    (path_str : str -> str) (lower : str -> str) (idx : module_index) :
  _load_endstone_modules ref_dir path_str = Some idx ->
  match ref_dir (lit "event.py") with
  | Readable text_ =>
      result_text (_get_event_info idx lower None)
      = Some (lit "# Available Events ("
                ++ str_of_nat
                     (List.length (filter is_event (_extract_exports text_)))
                ++ lit ")" ++ [nl; nl]
                ++ List.concat
                     (map (fun e => lit "- `" ++ e ++ lit "`" ++ [nl])
                        (filter is_event (_extract_exports text_))))
  | Inaccessible => False
  | _ =>
      forall event_type : option str,
        result_text (_get_event_info idx lower event_type)
        = Some (lit "Event module not found")
  end.
Proof.
  intros Hload.
  assert (Hin : In (lit "event.py", lit "endstone.event") core_modules).
  { unfold core_modules. do 8 right. left. reflexivity. }
  assert (Hacc : ref_dir (lit "event.py") <> Inaccessible).
  { intros E. unfold _load_endstone_modules in Hload.
    rewrite load_loop_fold in Hload.
    assert (T : existsb (fun e : str * str => inaccessible (ref_dir (fst e)))
                  core_modules = true).
    { apply existsb_exists. exists (lit "event.py", lit "endstone.event").
      split; [exact Hin|]. cbn [fst]. now rewrite E. }
    rewrite T in Hload. discriminate Hload. }
  apply load_endstone_modules_fold in Hload.
  assert (G : Dict.get idx (lit "endstone.event") =
              match ref_dir (lit "event.py") with
              | Readable text_ =>
                  Some (mk_module_info (path_str (lit "event.py"))
                          (_extract_exports text_) text_)
              | _ => None
              end).
  { rewrite Hload.
    rewrite (@load_fold_get ref_dir path_str core_modules Dict.empty
               (lit "event.py") (lit "endstone.event")
               core_modules_distinct Hin).
    destruct (ref_dir (lit "event.py")); reflexivity. }
  clear Hload. unfold _get_event_info.
  destruct (ref_dir (lit "event.py")) as [| |text_|].
  - rewrite G. intros event_type. reflexivity.
  - rewrite G. intros event_type. reflexivity.
  - rewrite G.
    cbn [given result_text text_result result_content text exports].
    rewrite fold_export_item. now rewrite <- !app_assoc.
  - now apply Hacc.
Qed.

Lemma event_info_on_loaded_index_witness :
  exists idx,
    _load_endstone_modules sample_ref_dir sample_path = Some idx /\
    result_text (_get_event_info idx ascii_lower None) =
    Some (text_lines [ lit "# Available Events (2)"; lit "";
                       lit "- `Event`"; lit "- `PlayerJoinEvent`" ]).
Proof.
  eexists. split; [reflexivity|].
  exact (@event_info_on_loaded_index sample_ref_dir sample_path ascii_lower
           _ eq_refl).
Defined.

Lemma get_module_info_single (idx : module_index) (a : option str) :
  exists t, _get_module_info idx a = text_result t.
Proof.
  unfold _get_module_info. destruct (given a); [|eexists; reflexivity].
  destruct (Dict.get idx s); eexists; reflexivity.
Qed.

Lemma search_exports_single (idx : module_index) (lower : str -> str)
    (a : option str) :
  exists t, _search_exports idx lower a = text_result t.
Proof.
  unfold _search_exports. destruct (given a); eexists; reflexivity.
Qed.

Lemma generate_plugin_template_single (a : option str)
    (features : list str) :
  exists t, _generate_plugin_template a features = text_result t.
Proof.
  unfold _generate_plugin_template. destruct (given a); eexists; reflexivity.
Qed.

Lemma get_event_info_single (idx : module_index) (lower : str -> str)
    (a : option str) :
  exists t, _get_event_info idx lower a = text_result t.
Proof.
  unfold _get_event_info.
  destruct (Dict.get idx (lit "endstone.event")); eexists; reflexivity.
Qed.

(** X15: [handle_call_tool] answers every call, whatever the tool name
    and the arguments, with exactly one content item of type [text]; for
    a name that is none of the four tools the text is
    [Unknown tool: <name>]. *)
Theorem call_tool_single_text (idx : module_index) (lower : str -> str)
    (name : str) (arguments : tool_arguments) :
  (exists t,
     handle_call_tool idx lower name arguments =
     [mk_TextContent (lit "text") t]) /\
  (~ In name tool_names ->
   handle_call_tool idx lower name arguments =
   [mk_TextContent (lit "text") (lit "Unknown tool: " ++ name)]).
Proof.
  split.
  - unfold handle_call_tool.
    destruct (str_eqb name (lit "get_module_info")).
    { destruct (get_module_info_single idx (arg_module_name arguments))
        as [t ->]. now exists t. }
    destruct (str_eqb name (lit "search_exports")).
    { destruct (search_exports_single idx lower (arg_query arguments))
        as [t ->]. now exists t. }
    destruct (str_eqb name (lit "generate_plugin_template")).
    { destruct (generate_plugin_template_single (arg_plugin_name arguments)
                  (match arg_features arguments with
                   | Some features => features
                   | None => []
                   end)) as [t ->]. now exists t. }
    destruct (str_eqb name (lit "get_event_info")).
    { destruct (get_event_info_single idx lower (arg_event_type arguments))
        as [t ->]. now exists t. }
    eexists; reflexivity.
  - intros Hn. unfold handle_call_tool.
    assert (F : forall k, In k tool_names -> str_eqb name k = false).
    { intros k Hk. apply str_eqb_neq. intros ->. contradiction. }
    rewrite !F by (unfold tool_names; simpl; auto).
    reflexivity.
Qed.

Lemma call_tool_single_text_witness :
  handle_call_tool sample_index ascii_lower (lit "list_modules") no_arguments
  = [mk_TextContent (lit "text") (lit "Unknown tool: list_modules")].
Proof.
  apply (proj2 (call_tool_single_text sample_index ascii_lower
                  (lit "list_modules") no_arguments)).
  intros H. apply str_in_iff in H. discriminate H.
Defined.

(* ================================================================== *)
(** ** The plugin template *)
(* ================================================================== *)

Lemma contains_text_lines (sub l : str) (ls : list str) :
  In l ls -> contains sub l = true -> contains sub (text_lines ls) = true.
Proof.
  intros Hin Hc. induction ls as [|x ls IH]; [destruct Hin|].
  change (text_lines (x :: ls)) with ((x ++ [nl]) ++ text_lines ls).
  destruct Hin as [->|Hin].
  - now apply contains_app_l, contains_app_l.
  - now apply contains_app_r, IH.
Qed.

Lemma create_plugin_template_pieces (name : str) (features : list str) :
  _create_plugin_template name features =
  template_base name
    ++ (if str_in (lit "events") features then template_events else [])
    ++ (if str_in (lit "commands") features then template_commands else [])
    ++ template_closing.
Proof.
  unfold _create_plugin_template.
  destruct (str_in (lit "events") features),
           (str_in (lit "commands") features);
    now rewrite <- ?app_assoc.
Qed.

(** X16: whatever the name and the features, the generated text starts
    with the import of [Plugin], declares the class [<name>Plugin] with
    the name copied as given, and holds both life-cycle methods,
    [on_enable] and [on_disable]. *)
Theorem plugin_template_lifecycle (name : str) (features : list str) :
  startswith (_create_plugin_template name features)
    (lit "from endstone.plugin import Plugin") = true /\
  contains (lit "class " ++ name ++ lit "Plugin(Plugin):")
    (_create_plugin_template name features) = true /\
  contains (lit "def on_enable(self) -> None:")
    (_create_plugin_template name features) = true /\
  contains (lit "def on_disable(self) -> None:")
    (_create_plugin_template name features) = true.
Proof.
  rewrite create_plugin_template_pieces.
  split; [|split; [|split]].
  - apply startswith_weaken.
    change (template_base name)
      with (lit "from endstone.plugin import Plugin"
              ++ nl :: text_lines
                   [ lit "from endstone import Logger"; lit "";
                     lit "class " ++ name ++ lit "Plugin(Plugin):";
                     lit "    "; lit "    def __init__(self):";
                     lit "        super().__init__()";
                     lit "        self.logger: Logger = self.get_logger()";
                     lit "    "; lit "    def on_enable(self) -> None:";
                     lit "        " ++ tquote
                       ++ lit "Called when the plugin is enabled." ++ tquote;
                     lit "        self.logger.info(f" ++ dquote
                       ++ lit "{self.name} v{self.version} has been enabled!"
                       ++ dquote ++ lit ")" ]).
    apply startswith_app.
  - apply contains_app_l. unfold template_base.
    apply contains_text_lines
      with (l := lit "class " ++ name ++ lit "Plugin(Plugin):").
    + do 3 right. now left.
    + apply contains_refl.
  - apply contains_app_l. unfold template_base.
    apply contains_text_lines with (l := lit "    def on_enable(self) -> None:").
    + do 9 right. now left.
    + reflexivity.
  - do 3 apply contains_app_r. reflexivity.
Qed.

(** X17: only the base piece is an f-string.  In every generated text the
    enable message is written with single braces and the disable message
    with doubled braces; with ["events"] among the features the
    player-join message has doubled braces too. *)
Theorem plugin_template_braces (name : str) (features : list str) :
  contains (lit "info(f" ++ dquote
              ++ lit "{self.name} v{self.version} has been enabled!")
    (_create_plugin_template name features) = true /\
  contains (lit "info(f" ++ dquote ++ lit "{{self.name}} has been disabled!")
    (_create_plugin_template name features) = true /\
  (In (lit "events") features ->
   contains (lit "info(f" ++ dquote
               ++ lit "Player {{player.name}} joined the server!")
     (_create_plugin_template name features) = true).
Proof.
  rewrite create_plugin_template_pieces.
  split; [|split].
  - apply contains_app_l. unfold template_base.
    apply contains_text_lines
      with (l := lit "        self.logger.info(f" ++ dquote
                   ++ lit "{self.name} v{self.version} has been enabled!"
                   ++ dquote ++ lit ")").
    + do 11 right. now left.
    + reflexivity.
  - do 3 apply contains_app_r. reflexivity.
  - intros Hev. apply str_in_iff in Hev. rewrite Hev.
    apply contains_app_r, contains_app_l. reflexivity.
Qed.

Lemma plugin_template_braces_witness :
  contains (lit "info(f" ++ dquote
              ++ lit "Player {{player.name}} joined the server!")
    (_create_plugin_template (lit "Foo") [lit "events"]) = true.
Proof.
  apply (proj2 (proj2 (plugin_template_braces (lit "Foo") [lit "events"]))).
  simpl. now left.
Defined.

(* ================================================================== *)
(** ** Searching the loaded index *)
(* ================================================================== *)

Lemma core_module_names_no_newline (f m : str) :
  In (f, m) core_modules -> ~ In nl m.
Proof.
  assert (H : forallb (fun e => negb (existsb (char_eqb nl) (snd e)))
                core_modules = true) by (vm_compute; reflexivity).
  rewrite forallb_forall in H. intros Hin Hnl.
  specialize (H _ Hin). apply negb_true_iff in H. cbn [snd] in H.
  assert (T : existsb (char_eqb nl) m = true).
  { apply existsb_exists. exists nl. split; [exact Hnl|].
    apply char_eqb_refl. }
  congruence.
Qed.

Lemma dict_set_clean (d : module_index) (k : str) (v : module_info) :
  index_clean d -> ~ In nl k -> Forall clean_export (exports v) ->
  index_clean (Dict.set d k v).
Proof.
  unfold index_clean. intros Hd Hk Hv.
  induction d as [|[k' v'] d IH]; simpl.
  - constructor; [split; assumption | constructor].
  - inversion Hd as [|? ? Hhd Htl]; subst.
    destruct (str_eqb k' k); constructor; auto.
    split; [apply Hhd | exact Hv].
Qed.

Lemma load_endstone_modules_clean (ref_dir : str -> file_status)
    (path_str : str -> str) (idx : module_index) :
  _load_endstone_modules ref_dir path_str = Some idx -> index_clean idx.
Proof.
  intros Hload. apply load_endstone_modules_fold in Hload. subst idx.
  assert (G : forall entries d,
             (forall f m, In (f, m) entries -> ~ In nl m) ->
             index_clean d ->
             index_clean
               (fold_left (store_step ref_dir path_str) entries d)).
  { induction entries as [|[f m] entries IH]; intros d He Hd; simpl; auto.
    apply IH; [intros f' m' H; apply (He f' m'); now right|].
    unfold store_step, load_step. destruct (ref_dir f); auto.
    apply dict_set_clean; auto.
    - apply (He f m). now left.
    - simpl. unfold _extract_exports, scan. apply scan_lines_clean.
      + apply split_lines_no_newline.
      + constructor. }
  apply G; [exact core_module_names_no_newline | constructor].
Qed.

Lemma search_hits_origin (lower : str -> str) (idx : module_index)
    (query e m : str) :
  In (e, m) (search_hits lower idx query) ->
  exists info, In (m, info) idx /\ In e (exports info).
Proof.
  unfold search_hits, Dict.items. intros H. apply in_flat_map in H.
  destruct H as [[m' info] [Hin H]]. apply in_map_iff in H.
  destruct H as [e' [E He]]. inversion E; subst. cbn [fst snd] in *.
  apply filter_In in He. exists info. tauto.
Qed.

Lemma search_line_no_newline (e m : str) :
  ~ In nl e -> ~ In nl m -> ~ In nl (search_line e m).
Proof.
  intros He Hm H. unfold search_line in H.
  repeat (apply in_app_or in H; destruct H as [H|H]); auto;
    vm_compute in H; intuition discriminate.
Qed.

Lemma search_exports_text_eq (idx : module_index) (lower : str -> str)
    (query : str) :
  truthy query = true ->
  result_text (_search_exports idx lower (Some query)) =
  Some
    match map (fun h => search_line (fst h) (snd h))
            (search_hits lower idx query) with
    | [] => lit "No exports found matching '" ++ query ++ lit "'"
    | l :: ls =>
        lit "# Search Results for '" ++ query ++ lit "'" ++ [nl; nl]
          ++ join [nl] (l :: ls)
    end.
Proof.
  intros Hq. unfold _search_exports. rewrite (given_truthy query Hq).
  rewrite search_module_fold. cbn [app]. unfold search_hits, Dict.items.
  match goal with
  | |- context [map ?f (flat_map ?g ?l)] =>
      destruct (map f (flat_map g l))
  end; reflexivity.
Qed.

Lemma search_output_lines_clean (idx : module_index) (lower : str -> str)
    (query : str) :
  index_clean idx ->
  truthy query = true ->
  ~ In nl query ->
  exists t,
    result_text (_search_exports idx lower (Some query)) = Some t /\
    split nl t =
    match search_hits lower idx query with
    | [] => [lit "No exports found matching '" ++ query ++ lit "'"]
    | _ :: _ =>
        (lit "# Search Results for '" ++ query ++ lit "'") :: []
          :: map (fun h => search_line (fst h) (snd h))
               (search_hits lower idx query)
    end.
Proof.
  intros Hidx Hq Hnl. rewrite (search_exports_text_eq idx lower query Hq).
  eexists. split; [reflexivity|].
  assert (Hlines : Forall (fun l => ~ In nl l)
                     (map (fun h => search_line (fst h) (snd h))
                        (search_hits lower idx query))).
  { apply Forall_forall. intros l Hl. apply in_map_iff in Hl.
    destruct Hl as [[e m] [<- Hh]]. cbn [fst snd].
    apply search_hits_origin in Hh. destruct Hh as [info [Hm He]].
    unfold index_clean in Hidx. rewrite Forall_forall in Hidx.
    destruct (Hidx _ Hm) as [Hk Hex]. cbn [fst snd] in *.
    rewrite Forall_forall in Hex. destruct (Hex _ He) as [Hen _].
    now apply search_line_no_newline. }
  assert (Hhead : forall a b : str,
             ~ In nl a -> ~ In nl b -> ~ In nl (a ++ query ++ b)).
  { intros a b Ha Hb H.
    repeat (apply in_app_or in H; destruct H as [H|H]); auto. }
  destruct (search_hits lower idx query) as [|h hs].
  - cbn [map]. apply split_no_sep, Hhead;
      intros H; vm_compute in H; intuition discriminate.
  - cbn [map] in *.
    set (l1 := search_line (fst h) (snd h)) in *.
    set (ls := map (fun h0 => search_line (fst h0) (snd h0)) hs) in *.
    set (header := lit "# Search Results for '" ++ query ++ lit "'").
    change (lit "# Search Results for '" ++ query ++ lit "'" ++ [nl; nl]
              ++ join [nl] (l1 :: ls))
      with (lit "# Search Results for '"
              ++ query ++ lit "'" ++ [nl; nl] ++ join [nl] (l1 :: ls)).
    replace (lit "# Search Results for '" ++ query ++ lit "'" ++ [nl; nl]
               ++ join [nl] (l1 :: ls))
      with (join [nl] (header :: [] :: l1 :: ls)).
    + apply split_join; [discriminate|].
      constructor; [|constructor; [intros []|exact Hlines]].
      apply Hhead; intros H; vm_compute in H; intuition discriminate.
    + unfold header.
      change (join [nl] ((lit "# Search Results for '" ++ query ++ lit "'")
                           :: [] :: l1 :: ls))
        with ((lit "# Search Results for '" ++ query ++ lit "'")
                ++ [nl] ++ [] ++ [nl] ++ join [nl] (l1 :: ls)).
      now rewrite <- !app_assoc.
Qed.

(** X18: a search on an index the loader returned, for a non-empty
    query without newline, gives a text whose lines are exactly these: the
    single line [No exports found matching '<query>'] when nothing
    matches, and otherwise the header, an empty line and one line per
    matching export. *)
Theorem search_lines_on_loaded_index (ref_dir : str -> file_status)
    (path_str : str -> str) (lower : str -> str) (query : str)
    (idx : module_index) :
  _load_endstone_modules ref_dir path_str = Some idx ->
  truthy query = true ->
  ~ In nl query ->
  exists t,
    result_text (_search_exports idx lower (Some query)) = Some t /\
    split nl t =
    match search_hits lower idx query with
    | [] => [lit "No exports found matching '" ++ query ++ lit "'"]
    | _ :: _ =>
        (lit "# Search Results for '" ++ query ++ lit "'") :: []
          :: map (fun h => search_line (fst h) (snd h))
               (search_hits lower idx query)
    end.
Proof.
  intros Hload Hq Hnl. apply search_output_lines_clean; auto.
  now apply (load_endstone_modules_clean ref_dir path_str).
Qed.

Lemma search_lines_on_loaded_index_witness :
  exists idx t,
    _load_endstone_modules sample_ref_dir sample_path = Some idx /\
    result_text (_search_exports idx ascii_lower (Some (lit "FORM")))
      = Some t /\
    split nl t =
    [ lit "# Search Results for 'FORM'"; lit "";
      lit "- `ActionForm` from `endstone.form`";
      lit "- `ModalForm` from `endstone.form`" ].
Proof.
  eexists.
  destruct (search_lines_on_loaded_index sample_ref_dir sample_path
              ascii_lower (lit "FORM") _ eq_refl) as [t [Ht Hs]].
  - reflexivity.
  - intros H. vm_compute in H. intuition discriminate.
  - exists t. split; [reflexivity|]. split; [exact Ht|].
    rewrite Hs. reflexivity.
Defined.

Lemma dict_get_in {V : Type} (d : Dict.t V) (k : str) (v : V) :
  Dict.get d k = Some v -> In (k, v) d.
Proof.
  induction d as [|[k' v'] d IH]; simpl; [discriminate|].
  destruct (str_eqb k' k) eqn:E.
  - apply str_eqb_eq in E. intros H. inversion H; subst. now left.
  - intros H. right. now apply IH.
Qed.

(** X19: whatever the reference directory holds, every export name
    stored in an index the loader returned is non-empty, does not start
    with [#], holds no newline, comma or closing bracket and is
    trimmed. *)
Theorem loaded_exports_well_formed (ref_dir : str -> file_status)
    (path_str : str -> str) (idx : module_index) (module_name : str)
    (info : module_info) :
  _load_endstone_modules ref_dir path_str = Some idx ->
  Dict.get idx module_name = Some info ->
  Forall (fun e => valid_export e /\ clean_export e) (exports info).
Proof.
  intros Hload Hget. apply dict_get_in in Hget.
  pose proof (load_endstone_modules_valid ref_dir path_str Hload) as Hv.
  pose proof (load_endstone_modules_clean ref_dir path_str idx Hload) as Hc.
  unfold index_valid in Hv. unfold index_clean in Hc.
  rewrite Forall_forall in Hv, Hc.
  specialize (Hv _ Hget). destruct (Hc _ Hget) as [_ Hc'].
  cbn [snd] in *. rewrite Forall_forall in *.
  intros e He. split; auto.
Qed.

Lemma loaded_exports_well_formed_witness :
  Forall (fun e => valid_export e /\ clean_export e)
    [lit "Event"; lit "PlayerJoinEvent"].
Proof.
  apply (loaded_exports_well_formed sample_ref_dir sample_path _
           (lit "endstone.event")
           (mk_module_info (lit "reference/endstone/event.py")
              [lit "Event"; lit "PlayerJoinEvent"]
              (join [nl] [ lit "__all__ = [";
                           lit "    " ++ quoted "Event" ++ lit ",";
                           lit "    " ++ quoted "PlayerJoinEvent" ++ lit ",";
                           lit "]" ]))
           eq_refl).
  reflexivity.
Defined.

(* ================================================================== *)
(** ** A marker line always opens a declaration *)
(* ================================================================== *)

Lemma find_char_found (c : char) (s : str) :
  contains [c] s = true -> (find s [c] =? -1)%Z = false.
Proof.
  intros H. apply contains_char_iff in H.
  destruct (find_char_prefix_clear c s H) as [a [b [_ [_ E]]]].
  rewrite E. apply Z.eqb_neq. lia.
Qed.

Lemma scan_marker_line (st : scan_state) (line : str) :
  startswith (strip line) marker = true ->
  scan_line st line =
  if contains lbracket (strip line) && contains rbracket (strip line)
  then mk_scan
         (exports_acc st
            ++ _parse_list_items
                 (slice (strip line) (find (strip line) lbracket + 1)
                    (find (strip line) rbracket)))
         false
  else mk_scan (exports_acc st) true.
Proof.
  intros Hm. unfold scan_line. rewrite Hm.
  destruct (contains lbracket (strip line)) eqn:Hl; [|reflexivity].
  destruct (contains rbracket (strip line)) eqn:Hr; [|reflexivity].
  cbn [andb].
  change lbracket with [lbracket_char] in *.
  change rbracket with [rbracket_char] in *.
  now rewrite (find_char_found _ _ Hl), (find_char_found _ _ Hr).
Qed.

(** C1 (amended): every line whose trimmed form starts with [__all__]
    opens a declaration, whatever the scanner state before it, so also
    after an earlier declaration was closed: with both brackets on the
    line its entries are added and the declaration is closed again,
    otherwise block mode is entered.  When the scan of [c1] ends outside
    a declaration, the text [c2] on the following lines is scanned as a
    file of its own and its entries are appended to those of [c1]; in
    particular a second declaration of plain names, on one line or in
    block form, contributes exactly its names after the entries of
    [c1]. *)
Theorem marker_line_reopens_declaration :
  (forall (st : scan_state) (line : str),
     startswith (strip line) marker = true ->
     scan_line st line =
     if contains lbracket (strip line) && contains rbracket (strip line)
     then mk_scan
            (exports_acc st
               ++ _parse_list_items
                    (slice (strip line) (find (strip line) lbracket + 1)
                       (find (strip line) rbracket)))
            false
     else mk_scan (exports_acc st) true) /\
  (forall c1 c2 : str,
     in_all_block (scan c1) = false ->
     _extract_exports (c1 ++ nl :: c2) =
     _extract_exports c1 ++ _extract_exports c2) /\
  (forall (c1 : str) (names : list str),
     in_all_block (scan c1) = false ->
     forallb plain_name names = true ->
     _extract_exports (c1 ++ nl :: one_line_declaration names) =
     _extract_exports c1 ++ names /\
     _extract_exports (c1 ++ nl :: block_declaration names) =
     _extract_exports c1 ++ names).
Proof.
  split; [exact scan_marker_line|]. split; [exact extract_exports_app|].
  intros c1 names Hout Hnames. split.
  - rewrite (extract_exports_app c1 _ Hout).
    now rewrite (one_line_declaration_reads names Hnames).
  - rewrite (extract_exports_app c1 _ Hout).
    unfold _extract_exports at 2. unfold scan.
    now rewrite (block_lines_split names Hnames),
                (block_lines_scan names Hnames).
Qed.

Lemma marker_line_reopens_declaration_witness :
  scan_line (mk_scan [lit "A"] false) (lit "__all__ = [")
    = mk_scan [lit "A"] true /\
  scan_line (mk_scan [lit "A"] true) second_declaration
    = mk_scan [lit "A"; lit "B"] false /\
  _extract_exports (first_declaration ++ nl :: second_declaration)
    = [lit "A"; lit "B"] /\
  _extract_exports
    (first_declaration ++ nl :: block_declaration [lit "B"; lit "C"])
    = [lit "A"; lit "B"; lit "C"].
Proof.
  destruct marker_line_reopens_declaration as [Hline [Happ Hdecl]].
  split; [|split; [|split]].
  - rewrite (Hline (mk_scan [lit "A"] false) (lit "__all__ = [") eq_refl).
    reflexivity.
  - rewrite (Hline (mk_scan [lit "A"] true) second_declaration eq_refl).
    reflexivity.
  - rewrite (Happ first_declaration second_declaration eq_refl).
    reflexivity.
  - rewrite (proj2 (Hdecl first_declaration [lit "B"; lit "C"]
                      eq_refl eq_refl)).
    reflexivity.
Defined.
